(** * predict.py: race-ranking pipeline over historical F1 results

    A shallow embedding of [src/predict.py].

    Modelling conventions.
    - The data provider (the [fastf1] package) is outside the repository.  It
      enters as section variables: [get_session] stands for
      [fastf1.get_session(..)] followed by [.load()] and [.results], with
      [None] for a raised exception; [get_event_schedule] likewise;
      [str_contains] stands for [Series.str.contains(pat, case=False,
      na=False)], with [None] when the pattern is rejected.
    - A bare [except: continue] becomes the [None] branch of a match.
    - Python floats are idealised as exact rationals ([Q]); nothing below
      depends on binary rounding.  A [Position] cell is a float that [int()]
      either converts or rejects (NaN), hence [option Z].
    - [dict]/[defaultdict] are [gmap]s, [set] is a [gset].  The iteration
      order of a Python [set] and the order pandas leaves among equal sort keys
      are not fixed by the program; both are interfaces ([SetOrder],
      [ScoreSort]), each with an executable instance. *)

From Stdlib Require Import ZArith QArith Qround Lia List Sorted Permutation.
From Stdlib Require Import Lqa.
From stdpp Require Import base gmap sets list strings sorting.

Local Open Scope Z_scope.

(** ** Data model *)

Inductive SessionKind := R | Sprint.

(** One row of [session.results] (the columns the program reads). *)
Record ResultRow := mkResultRow {
  DriverNumber : string;
  FullName : string;
  Position : option Z
}.

(** One row of the event schedule. *)
Record Event := mkEvent {
  EventName : string;
  RoundNumber : Z;
  EventDate : Z
}.

Definition FIA_POINTS_RACE : list Z := [25; 18; 15; 12; 10; 8; 6; 4; 2; 1].
Definition FIA_POINTS_SPRINT : list Z := [8; 7; 6; 5; 4; 3; 2; 1].

(** [enumerate(xs, start=n)] *)
Fixpoint enumerate {A : Type} (start : nat) (xs : list A) : list (nat * A) :=
  match xs with
  | [] => []
  | x :: rest => (start, x) :: enumerate (S start) rest
  end.

(** [d.get(k, dflt)] *)
Definition dict_get {V : Type} (d : gmap string V) (k : string) (dflt : V) : V :=
  default dflt (d !! k).

(** [points[k] += v] on a [defaultdict(float)] *)
Definition add_points (points : gmap string Q) (k : string) (v : Z) : gmap string Q :=
  <[k := (dict_get points k 0 + inject_Z v)%Q]> points.

(** The inner loop of [get_total_driver_points]:
    [for i, drv in enumerate(results, start=1): if i <= limit: points[..] += table[i-1]].
    The guard keeps [i - 1] inside the table, so the subscript cannot raise. *)
Definition award_step (table : list Z) (limit : nat)
    (points : gmap string Q) (entry : nat * ResultRow) : gmap string Q :=
  let '(i, drv) := entry in
  if (i <=? limit)%nat
  then add_points points (DriverNumber drv) (nth (i - 1) table 0)
  else points.

Definition award (table : list Z) (limit : nat)
    (points : gmap string Q) (results : list ResultRow) : gmap string Q :=
  fold_left (award_step table limit) (enumerate 1 results) points.

(** Points per finish rank as the championship rules list them: the reference
    the two tables are compared with. *)
Definition race_points_for_rank (rank : nat) : Z :=
  match rank with
  | 1%nat => 25 | 2%nat => 18 | 3%nat => 15 | 4%nat => 12 | 5%nat => 10
  | 6%nat => 8 | 7%nat => 6 | 8%nat => 4 | 9%nat => 2 | 10%nat => 1
  | _ => 0
  end.

Definition sprint_points_for_rank (rank : nat) : Z :=
  match rank with
  | 1%nat => 8 | 2%nat => 7 | 3%nat => 6 | 4%nat => 5
  | 5%nat => 4 | 6%nat => 3 | 7%nat => 2 | 8%nat => 1
  | _ => 0
  end.

(** What driver [d] earns from one session result whose first row has rank
    [rank]: the rule's points at every rank where [d] is listed. *)
Fixpoint earned_from (rule : nat -> Z) (rank : nat) (results : list ResultRow)
    (d : string) : Z :=
  match results with
  | [] => 0
  | row :: rest =>
      (if decide (DriverNumber row = d) then rule rank else 0)
      + earned_from rule (S rank) rest d
  end.

Definition session_earned (rule : nat -> Z) (results : list ResultRow) (d : string) : Z :=
  earned_from rule 1 results d.

(** Every stored total is at least zero. *)
Definition nonneg_points (points : gmap string Q) : Prop :=
  map_Forall (fun _ v => (0 <= v)%Q) points.

(** [sum(pos_list) / len(pos_list) if pos_list else 20] *)
Definition mean (pos_list : list Z) : Q :=
  (inject_Z (fold_left Z.add pos_list 0%Z) / inject_Z (Z.of_nat (length pos_list)))%Q.

Definition mean_or_default (pos_list : list Z) : Q :=
  match pos_list with
  | [] => 20%Q
  | _ :: _ => mean pos_list
  end.

(** [d[k]] on a [defaultdict(list)]: a missing key is inserted with [[]]. *)
Definition touch (d : gmap string (list Z)) (k : string) : gmap string (list Z) :=
  match d !! k with
  | Some _ => d
  | None => <[k := []]> d
  end.

(** [for drv in results: d[key(drv)].append(int(drv.Position))].
    Python evaluates [d[key(drv)]] before the argument, so the key exists by
    the time [int()] can raise; the exception ends the loop and the enclosing
    [except] keeps what was recorded so far. *)
Fixpoint record_positions (key : ResultRow -> string)
    (d : gmap string (list Z)) (results : list ResultRow) : gmap string (list Z) :=
  match results with
  | [] => d
  | drv :: rest =>
      let d := touch d (key drv) in
      match Position drv with
      | None => d
      | Some p => record_positions key (<[key drv := dict_get d (key drv) [] ++ [p]]> d) rest
      end
  end.

(** The [FullName] of the last row of [results] whose [DriverNumber] is [d]. *)
Fixpoint last_name (results : list ResultRow) (d : string) : option string :=
  match results with
  | [] => None
  | row :: rest =>
      match last_name rest d with
      | Some name => Some name
      | None => if decide (DriverNumber row = d) then Some (FullName row) else None
      end
  end.

(** [range(a, b)] *)
Definition range (a b : Z) : list Z := seqZ a (b - a).

(** Calls made to the provider, in order. *)
Inductive Query :=
  | QSchedule (y : Z)
  | QSession (y rnd : Z) (k : SessionKind).

Definition query_season (q : Query) : Z :=
  match q with
  | QSchedule y => y
  | QSession y _ _ => y
  end.

(** Columns of the DataFrame, in the order the program adds them. *)
Record DataRow := mkDataRow {
  Driver : string;
  Points : Q;
  AvgFinishPos : Q;
  TrackAvgPos : Q
}.

Record ScoredRow := mkScoredRow {
  columns : DataRow;
  CustomScore : Q
}.

Record PredictionRow := mkPredictionRow {
  PredictedRank : Z;
  scored : ScoredRow
}.

Definition W_POINTS : Q := 20.
Definition W_AVG_FINISH : Q := 25.
Definition W_TRACK_AVG : Q := 25.

Definition custom_score (r : DataRow) : Q :=
  (Points r * W_POINTS + (- AvgFinishPos r) * W_AVG_FINISH
   + (- TrackAvgPos r) * W_TRACK_AVG)%Q.

Definition add_score (r : DataRow) : ScoredRow :=
  {| columns := r; CustomScore := custom_score r |}.

(** [round(x, 2)]: nearest multiple of 1/100, halves to the even neighbour. *)
Definition round_half_even (q : Q) : Z :=
  let f := Qfloor q in
  match (q - inject_Z f ?= 1 # 2)%Q with
  | Lt => f
  | Gt => f + 1
  | Eq => if Z.even f then f else f + 1
  end.

Definition round2 (q : Q) : Q := round_half_even (q * 100) # 100.

Definition round_columns (s : ScoredRow) : ScoredRow :=
  {| columns := {| Driver := Driver (columns s);
                   Points := round2 (Points (columns s));
                   AvgFinishPos := round2 (AvgFinishPos (columns s));
                   TrackAvgPos := round2 (TrackAvgPos (columns s)) |};
     CustomScore := round2 (CustomScore s) |}.

(** [a] is placed no later than [b] by a descending sort on [CustomScore]. *)
Definition score_ge (a b : ScoredRow) : Prop := (CustomScore b <= CustomScore a)%Q.

(** Iteration order of a Python [set]: some enumeration of its elements. *)
Class SetOrder := {
  set_iter : gset string -> list string;
  set_iter_perm : forall s, set_iter s ≡ₚ elements s
}.

(** [df.sort_values("CustomScore", ascending=False)]: the rows rearranged so
    that scores do not increase; the order among equal scores is pandas'. *)
Class ScoreSort := {
  sort_values : list ScoredRow -> list ScoredRow;
  sort_values_perm : forall l, sort_values l ≡ₚ l;
  sort_values_sorted : forall l, StronglySorted score_ge (sort_values l)
}.

(** [df.reset_index(drop=True); df["PredictedRank"] = df.index + 1] *)
Definition assign_rank (rows : list ScoredRow) : list PredictionRow :=
  imap (fun i s => {| PredictedRank := Z.of_nat i + 1; scored := s |}) rows.

Definition round_row (r : PredictionRow) : PredictionRow :=
  {| PredictedRank := PredictedRank r; scored := round_columns (scored r) |}.

(** [past_races = schedule[EventDate < now]; past_races["RoundNumber"].tolist()] *)
Definition completed_rounds (schedule : list Event) (now : Z) : list Z :=
  map RoundNumber (List.filter (fun e => EventDate e <? now) schedule).

(** What a call of [predict_race] ends in. *)
Inductive Outcome :=
  | Raised
  | NoCircuit
  | Table (rows : list PredictionRow).

(** ** Notions used to describe what the loops read *)

(** Driver [d] is listed in one of the first [limit] rows of [results]. *)
Definition scored_in (limit : nat) (results : list ResultRow) (d : string) : Prop :=
  exists i row, results !! i = Some row /\ (i < limit)%nat /\ DriverNumber row = d.

(** The rows in front of the first row whose [Position] does not convert. *)
Fixpoint classified_prefix (results : list ResultRow) : list ResultRow :=
  match results with
  | [] => []
  | row :: rest =>
      match Position row with
      | Some _ => row :: classified_prefix rest
      | None => []
      end
  end.

(** The rows a position-recording loop gets to: the classified prefix and, if
    there is one, the first row whose [Position] does not convert. *)
Fixpoint rows_reached (results : list ResultRow) : list ResultRow :=
  match results with
  | [] => []
  | row :: rest =>
      match Position row with
      | Some _ => row :: rows_reached rest
      | None => [row]
      end
  end.

(** The positions of the rows filed under [d], in row order. *)
Definition positions_of (key : ResultRow -> string) (results : list ResultRow)
    (d : string) : list Z :=
  omap (fun row => if decide (key row = d) then Position row else None) results.

(** Every stored total is at least one. *)
Definition positive_points (points : gmap string Q) : Prop :=
  map_Forall (fun _ v => (1 <= v)%Q) points.

(** ** Executable instances of the two interfaces *)

#[global] Instance score_ge_dec (a b : ScoredRow) : Decision (score_ge a b).
Proof. unfold score_ge, Qle. apply Z_le_dec. Defined.

#[global] Instance score_ge_trans : Transitive score_ge.
Proof. intros a b c Hab Hbc. unfold score_ge in *. eapply Qle_trans; eassumption. Qed.

#[global] Instance score_ge_total : Total score_ge.
Proof.
  intros a b. unfold score_ge.
  destruct (Qlt_le_dec (CustomScore a) (CustomScore b)) as [Hlt | Hle].
  - right. apply Qlt_le_weak, Hlt.
  - left. exact Hle.
Qed.

(** Sets listed in the order of stdpp's [elements]. *)
Definition elements_order : SetOrder :=
  {| set_iter := elements; set_iter_perm := fun s => Permutation_refl (elements s) |}.

(** A stable merge sort on descending score. *)
Definition merge_sort_scores : ScoreSort :=
  {| sort_values := merge_sort score_ge;
     sort_values_perm := merge_sort_Permutation score_ge;
     sort_values_sorted := StronglySorted_merge_sort score_ge |}.

(** ** Fixtures

    Small provider tables used to run the model. *)

#[global] Instance SessionKind_eq_dec : EqDecision SessionKind.
Proof. solve_decision. Defined.

(** A provider that answers from a finite table and fails for every session
    that is not listed. *)
Fixpoint lookup_session (table : list (Z * Z * SessionKind * list ResultRow))
    (y rnd : Z) (k : SessionKind) : option (list ResultRow) :=
  match table with
  | [] => None
  | (key, results) :: rest =>
      if decide (key = (y, rnd, k)) then Some results
      else lookup_session rest y rnd k
  end.

Module Fixture.

Definition ham (pos : option Z) : ResultRow := mkResultRow "44" "Lewis Hamilton" pos.
Definition ver (pos : option Z) : ResultRow := mkResultRow "1" "Max Verstappen" pos.
Definition bea (pos : option Z) : ResultRow := mkResultRow "38" "Oliver Bearman" pos.

Definition schedule : Z -> option (list Event) :=
  fun y => Some [mkEvent "Bahrain Grand Prix" 1 10;
                 mkEvent "Italian Grand Prix" 2 20;
                 mkEvent "Belgian Grand Prix" 3 30].

(** A literal pattern; only the spelling used in the schedule is recognised. *)
Definition contains : string -> option (string -> bool) :=
  fun pat => Some (fun name => String.eqb name (pat ++ " Grand Prix")).

(** Round 1 has no Race result but a Sprint result. *)
Definition sprint_only_round : list (Z * Z * SessionKind * list ResultRow) :=
  [((2023, 1, Sprint), [ham (Some 1); ver (Some 2)])].

(** Round 1 has both sessions, round 2 a Race only; two earlier seasons. *)
Definition season : list (Z * Z * SessionKind * list ResultRow) :=
  [((2023, 1, R), [ver (Some 1); ham (Some 2)]);
   ((2023, 1, Sprint), [ham (Some 1); ver (Some 2)]);
   ((2023, 2, R), [ham (Some 1); ver (Some 2)]);
   ((2022, 2, R), [ver (Some 1); ham (Some 3)]);
   ((2021, 2, R), [ham (Some 2); ver (Some 1)])].

(** A driver who is listed in the Sprint of round 1 only. *)
Definition sprint_guest : list (Z * Z * SessionKind * list ResultRow) :=
  [((2023, 1, R), [ver (Some 1); ham (Some 2)]);
   ((2023, 1, Sprint), [ham (Some 1); bea (Some 2); ver (Some 3)])].

(** Race results whose first row has no classified position (NaN). *)
Definition unclassified : list (Z * Z * SessionKind * list ResultRow) :=
  [((2023, 1, R), [bea None; ham (Some 1)]);
   ((2022, 2, R), [bea None; ham (Some 1)])].

(** A driver whose recorded name changes between rounds 1 and 2. *)
Definition renamed : list (Z * Z * SessionKind * list ResultRow) :=
  [((2023, 1, R), [mkResultRow "44" "L. Hamilton" (Some 1)]);
   ((2023, 2, R), [mkResultRow "44" "Lewis Hamilton" (Some 1)]);
   ((2022, 2, R), [mkResultRow "44" "L. Hamilton" (Some 5)])].

End Fixture.

(** [Fixture.season] with every [Position] cell replaced by NaN. *)
Definition season_without_positions : list (Z * Z * SessionKind * list ResultRow) :=
  map (fun e => (e.1, map (fun r => mkResultRow (DriverNumber r) (FullName r) None) e.2))
      Fixture.season.

(** [Fixture.season] with another Race result for round 3, which the schedule
    dates at 30. *)
Definition season_with_later_round : list (Z * Z * SessionKind * list ResultRow) :=
  ((2023, 3, R), [Fixture.bea (Some 1); Fixture.ver (Some 2)]) :: Fixture.season.

(** ** The program *)

Section Pipeline.

Variable get_session : Z -> Z -> SessionKind -> option (list ResultRow).
Variable get_event_schedule : Z -> option (list Event).
Variable str_contains : string -> option (string -> bool).

(** *** get_total_driver_points *)

(** The body of [for rnd in valid_rounds].  The first [except: continue]
    leaves the iteration before the sprint block is reached. *)
Definition points_round (year : Z) (points : gmap string Q) (rnd : Z) : gmap string Q :=
  match get_session year rnd R with
  | None => points
  | Some race =>
      let points := award FIA_POINTS_RACE 10 points race in
      match get_session year rnd Sprint with
      | None => points
      | Some sprint => award FIA_POINTS_SPRINT 8 points sprint
      end
  end.

Definition get_total_driver_points (year : Z) (valid_rounds : list Z) : gmap string Q :=
  fold_left (points_round year) valid_rounds ∅.

(** The loop body as the specification words it, kept for comparison: the two
    sessions of a round are fetched independently of each other. *)
Definition points_round_independent (year : Z) (points : gmap string Q) (rnd : Z)
    : gmap string Q :=
  let points :=
    match get_session year rnd R with
    | None => points
    | Some race => award FIA_POINTS_RACE 10 points race
    end in
  match get_session year rnd Sprint with
  | None => points
  | Some sprint => award FIA_POINTS_SPRINT 8 points sprint
  end.

(** What the loop body credits driver [d] for round [rnd]. *)
Definition round_earned (year rnd : Z) (d : string) : Z :=
  match get_session year rnd R with
  | None => 0
  | Some race =>
      session_earned race_points_for_rank race d
      + match get_session year rnd Sprint with
        | None => 0
        | Some sprint => session_earned sprint_points_for_rank sprint d
        end
  end.

(** *** get_avg_finish_pos *)

Definition finishes_round (year : Z) (finishes : gmap string (list Z)) (rnd : Z)
    : gmap string (list Z) :=
  match get_session year rnd R with
  | None => finishes
  | Some race => record_positions DriverNumber finishes race
  end.

Definition season_finishes (year : Z) (valid_rounds : list Z) : gmap string (list Z) :=
  fold_left (finishes_round year) valid_rounds ∅.

Definition get_avg_finish_pos (year : Z) (valid_rounds : list Z) : gmap string Q :=
  mean_or_default <$> season_finishes year valid_rounds.

(** *** get_past_track_performance *)

Definition past_years (year : Z) : list Z :=
  filter (fun y => 2018 <= y) (range (year - 3) year).

(** The body of [for y in past_years], on the pair of [track_performance] and
    the log of provider calls made so far. *)
Definition track_year (circuit_name : string)
    (st : gmap string (list Z) * list Query) (y : Z)
    : gmap string (list Z) * list Query :=
  let '(track_performance, log) := st in
  let log := log ++ [QSchedule y] in
  match get_event_schedule y with
  | None => (track_performance, log)
  | Some schedule =>
      match str_contains circuit_name with
      | None => (track_performance, log)
      | Some matches =>
          match List.filter (fun e => matches (EventName e)) schedule with
          | [] => (track_performance, log)
          | ev :: _ =>
              let rnd := RoundNumber ev in
              let log := log ++ [QSession y rnd R] in
              match get_session y rnd R with
              | None => (track_performance, log)
              | Some race => (record_positions FullName track_performance race, log)
              end
          end
      end
  end.

Definition track_history (circuit_name : string) (year : Z)
    : gmap string (list Z) * list Query :=
  fold_left (track_year circuit_name) (past_years year) (∅, []).

Definition get_past_track_performance (circuit_name : string) (year : Z) : gmap string Q :=
  mean_or_default <$> (track_history circuit_name year).1.

(** The provider calls [get_past_track_performance] makes. *)
Definition track_queries (circuit_name : string) (year : Z) : list Query :=
  (track_history circuit_name year).2.

(** *** Conditions on what the provider returns *)

(** Every [Position] cell of every Race result is a number [int()] accepts. *)
Definition positions_convert : Prop :=
  forall y rnd results row,
    get_session y rnd R = Some results -> row ∈ results -> is_Some (Position row).

Definition positions_at_least_one : Prop :=
  forall y rnd results row p,
    get_session y rnd R = Some results -> row ∈ results ->
    Position row = Some p -> 1 <= p.

(** [p] is the finish position of a Race result row filed under [d]. *)
Definition recorded (key : ResultRow -> string) (d : string) (p : Z) : Prop :=
  exists y rnd results row,
    get_session y rnd R = Some results /\ row ∈ results
    /\ key row = d /\ Position row = Some p.

(** Every list of [finishes] is a non-empty list of recorded positions. *)
Definition all_recorded (key : ResultRow -> string) (finishes : gmap string (list Z))
    : Prop :=
  forall d l, finishes !! d = Some l -> l <> [] /\ Forall (recorded key d) l.

(** Every entry of [result] is the mean of a non-empty list of recorded
    positions, the one [finishes] holds for that key. *)
Definition means_of_recorded (key : ResultRow -> string)
    (finishes : gmap string (list Z)) (result : gmap string Q) : Prop :=
  forall d v, result !! d = Some v ->
    exists l, finishes !! d = Some l /\ l <> [] /\ Forall (recorded key d) l
              /\ v = mean l.

(** *** predict_race *)

(** [season_drivers.add(..); name_lookup[..] = drv.FullName] *)
Definition collect_row (st : gset string * gmap string string) (drv : ResultRow)
    : gset string * gmap string string :=
  ({[DriverNumber drv]} ∪ st.1, <[DriverNumber drv := FullName drv]> st.2).

Definition collect_round (year : Z) (st : gset string * gmap string string) (rnd : Z)
    : gset string * gmap string string :=
  match get_session year rnd R with
  | None => st
  | Some race => fold_left collect_row race st
  end.

Definition collect_drivers (year : Z) (valid_rounds : list Z)
    : gset string * gmap string string :=
  fold_left (collect_round year) valid_rounds (∅, ∅).

Definition season_drivers (year : Z) (valid_rounds : list Z) : gset string :=
  (collect_drivers year valid_rounds).1.

Definition name_lookup (year : Z) (valid_rounds : list Z) : gmap string string :=
  (collect_drivers year valid_rounds).2.

(** Driver [d] is listed in the result of some session, of either kind, of a
    completed round. *)
Definition appeared (year : Z) (valid_rounds : list Z) (d : string) : Prop :=
  exists rnd k results row,
    rnd ∈ valid_rounds /\ get_session year rnd k = Some results
    /\ row ∈ results /\ DriverNumber row = d.

(** Driver [d] is listed in the Race result of a completed round. *)
Definition raced (year : Z) (valid_rounds : list Z) (d : string) : Prop :=
  exists rnd results row,
    rnd ∈ valid_rounds /\ get_session year rnd R = Some results
    /\ row ∈ results /\ DriverNumber row = d.

(** The body of [for drv in season_drivers] *)
Definition make_row (points avg_finish track_perf : gmap string Q)
    (names : gmap string string) (drv : string) : DataRow :=
  let name := dict_get names drv ("Driver #" ++ drv)%string in
  {| Driver := name;
     Points := dict_get points drv 0%Q;
     AvgFinishPos := dict_get avg_finish drv 20%Q;
     TrackAvgPos := dict_get track_perf name 20%Q |}.

Context {set_order : SetOrder} {score_sort : ScoreSort}.

(** [data], one row per element of [season_drivers] in iteration order *)
Definition data_rows (year : Z) (circuit_name : string) (valid_rounds : list Z)
    : list DataRow :=
  let points := get_total_driver_points year valid_rounds in
  let avg_finish := get_avg_finish_pos year valid_rounds in
  let track_perf := get_past_track_performance circuit_name year in
  map (make_row points avg_finish track_perf (name_lookup year valid_rounds))
      (set_iter (season_drivers year valid_rounds)).

(** [df] once the [CustomScore] column has been added *)
Definition score_table (year : Z) (circuit_name : string) (valid_rounds : list Z)
    : list ScoredRow :=
  map add_score (data_rows year circuit_name valid_rounds).

(** The row of one driver, with its score, before sorting and rounding. *)
Definition driver_row (year : Z) (circuit_name : string) (valid_rounds : list Z)
    (drv : string) : ScoredRow :=
  add_score (make_row (get_total_driver_points year valid_rounds)
                      (get_avg_finish_pos year valid_rounds)
                      (get_past_track_performance circuit_name year)
                      (name_lookup year valid_rounds) drv).

(** [predict_race] from [points = get_total_driver_points(..)] to the printed
    table, as a function of the completed rounds. *)
Definition predict_table (year : Z) (circuit_name : string) (valid_rounds : list Z)
    : list PredictionRow :=
  map round_row (assign_rank (sort_values (score_table year circuit_name valid_rounds))).

(** The printed row of driver [drv] when it is placed at 0-based index [i]. *)
Definition printed_row (year : Z) (circuit_name : string) (valid_rounds : list Z)
    (i : nat) (drv : string) : PredictionRow :=
  {| PredictedRank := Z.of_nat i + 1;
     scored := round_columns (driver_row year circuit_name valid_rounds drv) |}.

Definition predict_race (year : Z) (circuit_name : string) (now : Z) : Outcome :=
  match get_event_schedule year with
  | None => Raised
  | Some schedule =>
      match str_contains circuit_name with
      | None => Raised
      | Some matches =>
          match List.filter (fun e => matches (EventName e)) schedule with
          | [] => NoCircuit
          | _ :: _ =>
              let valid_rounds := completed_rounds schedule now in
              Table (predict_table year circuit_name valid_rounds)
          end
      end
  end.


(** *** Closed forms of the accumulators *)

(** The sum over [rounds] of what the loop body credits driver [d]. *)
Definition total_earned (year : Z) (rounds : list Z) (d : string) : Z :=
  foldr (fun rnd acc => round_earned year rnd d + acc) 0 rounds.

(** The Race rows whose positions [get_avg_finish_pos] records, in the order
    it reads them. *)
Definition race_rows_read (year : Z) (rounds : list Z) : list ResultRow :=
  flat_map (fun rnd => match get_session year rnd R with
                       | Some race => classified_prefix race
                       | None => []
                       end) rounds.

(** The round [get_past_track_performance] resolves the circuit to in season
    [y]: the round of the first event whose name matches, if the schedule is
    available and the pattern is accepted. *)
Definition track_round (circuit_name : string) (y : Z) : option Z :=
  match get_event_schedule y with
  | None => None
  | Some schedule =>
      match str_contains circuit_name with
      | None => None
      | Some matches =>
          match List.filter (fun e => matches (EventName e)) schedule with
          | [] => None
          | ev :: _ => Some (RoundNumber ev)
          end
      end
  end.

(** The provider calls one season gives rise to. *)
Definition season_queries (circuit_name : string) (y : Z) : list Query :=
  QSchedule y :: match track_round circuit_name y with
                 | Some rnd => [QSession y rnd R]
                 | None => []
                 end.

(** The Race rows whose positions [get_past_track_performance] records. *)
Definition track_rows_read (circuit_name : string) (year : Z) : list ResultRow :=
  flat_map (fun y => match track_round circuit_name y with
                     | Some rnd =>
                         match get_session y rnd R with
                         | Some race => classified_prefix race
                         | None => []
                         end
                     | None => []
                     end) (past_years year).

(** ** Facts about the points tables and the inner award loop *)

Lemma race_table_matches_rule (i : nat) :
  (1 <= i)%nat ->
  (if (i <=? 10)%nat then nth (i - 1) FIA_POINTS_RACE 0 else 0) = race_points_for_rank i.
Proof.
  intros Hi. destruct i as [|i]; [lia|].
  do 10 (destruct i as [|i]; [reflexivity|]). reflexivity.
Qed.

Lemma sprint_table_matches_rule (i : nat) :
  (1 <= i)%nat ->
  (if (i <=? 8)%nat then nth (i - 1) FIA_POINTS_SPRINT 0 else 0) = sprint_points_for_rank i.
Proof.
  intros Hi. destruct i as [|i]; [lia|].
  do 8 (destruct i as [|i]; [reflexivity|]). reflexivity.
Qed.

Lemma dict_get_add_points (points : gmap string Q) (k d : string) (v : Z) :
  dict_get (add_points points k v) d 0%Q =
  if decide (k = d) then (dict_get points d 0 + inject_Z v)%Q else dict_get points d 0%Q.
Proof.
  unfold add_points, dict_get at 1. rewrite lookup_insert.
  destruct (decide (k = d)) as [->|]; reflexivity.
Qed.

Lemma award_from_earned (table : list Z) (limit : nat) (rule : nat -> Z) (d : string) :
  (forall i, (1 <= i)%nat ->
             (if (i <=? limit)%nat then nth (i - 1) table 0 else 0) = rule i) ->
  forall results start points,
    (1 <= start)%nat ->
    (dict_get (fold_left (award_step table limit) (enumerate start results) points) d 0
     == dict_get points d 0 + inject_Z (earned_from rule start results d))%Q.
Proof.
  intros Hrule. induction results as [|row rest IH]; intros start points Hs; simpl.
  - ring.
  - rewrite IH by lia. rewrite inject_Z_plus, <- (Hrule start Hs).
    destruct (start <=? limit)%nat.
    + rewrite dict_get_add_points. destruct (decide (DriverNumber row = d)); ring.
    + destruct (decide (DriverNumber row = d)); ring.
Qed.

Lemma award_race_earned (points : gmap string Q) (results : list ResultRow) (d : string) :
  (dict_get (award FIA_POINTS_RACE 10 points results) d 0
   == dict_get points d 0 + inject_Z (session_earned race_points_for_rank results d))%Q.
Proof. apply award_from_earned; [apply race_table_matches_rule | lia]. Qed.

Lemma award_sprint_earned (points : gmap string Q) (results : list ResultRow) (d : string) :
  (dict_get (award FIA_POINTS_SPRINT 8 points results) d 0
   == dict_get points d 0 + inject_Z (session_earned sprint_points_for_rank results d))%Q.
Proof. apply award_from_earned; [apply sprint_table_matches_rule | lia]. Qed.

Lemma dict_get_nonneg (points : gmap string Q) (d : string) :
  nonneg_points points -> (0 <= dict_get points d 0)%Q.
Proof.
  intros H. unfold dict_get. destruct (points !! d) as [v|] eqn:E; simpl.
  - exact (H d v E).
  - apply Qle_refl.
Qed.

Lemma add_points_nonneg (points : gmap string Q) (k : string) (v : Z) :
  0 <= v -> nonneg_points points -> nonneg_points (add_points points k v).
Proof.
  intros Hv H. unfold add_points. apply map_Forall_insert_2; [|exact H].
  assert (0 <= inject_Z v)%Q as Hq.
  { change 0%Q with (inject_Z 0). rewrite <- Zle_Qle. exact Hv. }
  exact (Qplus_le_compat 0 _ 0 _ (dict_get_nonneg points k H) Hq).
Qed.

Lemma nth_nonneg (table : list Z) (i : nat) :
  Forall (fun p => 0 <= p) table -> 0 <= nth i table 0.
Proof.
  intros H. revert i. induction H as [|p t Hp _ IH]; intros [|i]; simpl; try lia.
  apply IH.
Qed.

Lemma award_nonneg (table : list Z) (limit : nat) (results : list ResultRow) :
  Forall (fun p => 0 <= p) table ->
  forall start points,
    nonneg_points points ->
    nonneg_points (fold_left (award_step table limit) (enumerate start results) points).
Proof.
  intros Ht. induction results as [|row rest IH]; intros start points H; simpl; [exact H|].
  apply IH. destruct (start <=? limit)%nat; [|exact H].
  apply add_points_nonneg; [apply nth_nonneg, Ht | exact H].
Qed.

Lemma race_table_nonneg : Forall (fun p => 0 <= p) FIA_POINTS_RACE.
Proof. unfold FIA_POINTS_RACE. repeat constructor; lia. Qed.

Lemma sprint_table_nonneg : Forall (fun p => 0 <= p) FIA_POINTS_SPRINT.
Proof. unfold FIA_POINTS_SPRINT. repeat constructor; lia. Qed.

Lemma earned_from_absent (rule : nat -> Z) (results : list ResultRow) (d : string) :
  (forall row, row ∈ results -> DriverNumber row <> d) ->
  forall rank, earned_from rule rank results d = 0.
Proof.
  induction results as [|row rest IH]; intros Habs rank; simpl; [reflexivity|].
  rewrite decide_False by (apply Habs; left).
  rewrite IH; [reflexivity|]. intros row' Hin. apply Habs. right. exact Hin.
Qed.

Lemma earned_from_unique (rule : nat -> Z) (results : list ResultRow) :
  NoDup (map DriverNumber results) ->
  forall rank i row,
    results !! i = Some row ->
    earned_from rule rank results (DriverNumber row) = rule (rank + i)%nat.
Proof.
  induction results as [|r rest IH]; intros Hnd rank i row Hi; [discriminate|].
  simpl in Hnd. apply NoDup_cons in Hnd as [Hr Hnd]. simpl.
  destruct i as [|i]; simpl in Hi.
  - injection Hi as ->. rewrite decide_True by reflexivity.
    rewrite earned_from_absent; [rewrite Nat.add_0_r; lia|].
    intros row' Hin Heq. apply Hr. rewrite <- Heq.
    apply list_elem_of_In, in_map, list_elem_of_In, Hin.
  - rewrite decide_False.
    + rewrite (IH Hnd (S rank) i row Hi). rewrite Nat.add_succ_r. reflexivity.
    + intros Heq. apply Hr. rewrite Heq.
      apply list_elem_of_In, in_map, list_elem_of_In.
      apply list_elem_of_lookup. exists i. exact Hi.
Qed.

(** ** PointsAccumulator *)

Lemma points_round_race_unavailable (year rnd : Z) (points : gmap string Q) :
  get_session year rnd R = None -> points_round year points rnd = points.
Proof. intros H. unfold points_round. rewrite H. reflexivity. Qed.

Lemma points_round_sprint_unavailable (year rnd : Z) (points : gmap string Q)
    (race : list ResultRow) :
  get_session year rnd R = Some race ->
  get_session year rnd Sprint = None ->
  points_round year points rnd = award FIA_POINTS_RACE 10 points race.
Proof. intros Hr Hs. unfold points_round. rewrite Hr, Hs. reflexivity. Qed.

Lemma points_round_earned (year rnd : Z) (points : gmap string Q) (d : string) :
  (dict_get (points_round year points rnd) d 0
   == dict_get points d 0 + inject_Z (round_earned year rnd d))%Q.
Proof.
  unfold points_round, round_earned.
  destruct (get_session year rnd R) as [race|]; [|simpl; ring].
  destruct (get_session year rnd Sprint) as [sprint|].
  - rewrite award_sprint_earned, award_race_earned, inject_Z_plus. ring.
  - rewrite award_race_earned, inject_Z_plus. simpl. ring.
Qed.

Lemma points_round_nonneg (year rnd : Z) (points : gmap string Q) :
  nonneg_points points -> nonneg_points (points_round year points rnd).
Proof.
  intros H. unfold points_round.
  destruct (get_session year rnd R) as [race|]; [|exact H].
  assert (nonneg_points (award FIA_POINTS_RACE 10 points race)) as Hrace
    by (apply award_nonneg; [apply race_table_nonneg | exact H]).
  destruct (get_session year rnd Sprint) as [sprint|]; [|exact Hrace].
  apply award_nonneg; [apply sprint_table_nonneg | exact Hrace].
Qed.

Lemma get_total_driver_points_nonneg (year : Z) (rounds : list Z) :
  nonneg_points (get_total_driver_points year rounds).
Proof.
  unfold get_total_driver_points.
  assert (forall points, nonneg_points points ->
            nonneg_points (fold_left (points_round year) rounds points)) as Hgen.
  { induction rounds as [|r rs IH]; intros points H; simpl; [exact H|].
    apply IH, points_round_nonneg, H. }
  apply Hgen. apply map_Forall_empty.
Qed.

Lemma get_total_driver_points_snoc (year : Z) (rounds : list Z) (rnd : Z) :
  get_total_driver_points year (rounds ++ [rnd])
  = points_round year (get_total_driver_points year rounds) rnd.
Proof. unfold get_total_driver_points. rewrite fold_left_app. reflexivity. Qed.

(** C5: in a round whose Race result is available, every driver's total grows
    by 25,18,15,12,10,8,6,4,2,1 for the ranks 1..10 at which the driver is
    listed in the Race result (0 beyond rank 10), plus 8,..,1 for the ranks
    1..8 in the Sprint result when that one is available too; the two amounts
    are added to the same total.  In a result that lists every driver once,
    the amount for the driver in row i (counted from 0) is the rule's value at
    rank i+1. *)
Theorem points_round_awards_fixed_tables (year rnd : Z) (points : gmap string Q)
    (race : list ResultRow) (d : string) :
  get_session year rnd R = Some race ->
  (dict_get (points_round year points rnd) d 0
   == dict_get points d 0
      + inject_Z (session_earned race_points_for_rank race d)
      + inject_Z (match get_session year rnd Sprint with
                  | Some sprint => session_earned sprint_points_for_rank sprint d
                  | None => 0
                  end))%Q
  /\ forall rule results i row,
       NoDup (map DriverNumber results) -> results !! i = Some row ->
       session_earned rule results (DriverNumber row) = rule (S i).
Proof.
  intros Hrace. split.
  - rewrite points_round_earned. unfold round_earned. rewrite Hrace.
    rewrite inject_Z_plus. ring.
  - intros rule results i row Hnd Hi.
    exact (earned_from_unique rule results Hnd 1%nat i row Hi).
Qed.

(** C7: the accumulated points of every driver are non-negative, and the
    accumulator is incremental: on the rounds followed by one more round it
    returns what the loop body makes of the result on the rounds alone, in
    particular for the rounds 1..k and round k+1; per driver the total on the
    longer list is the total on the rounds plus the total of the added round. *)
Theorem points_nonneg_and_incremental (year : Z) (rounds : list Z) (rnd : Z)
    (k : nat) (d : string) :
  (0 <= dict_get (get_total_driver_points year rounds) d 0)%Q
  /\ nonneg_points (get_total_driver_points year rounds)
  /\ get_total_driver_points year (rounds ++ [rnd])
     = points_round year (get_total_driver_points year rounds) rnd
  /\ get_total_driver_points year (seqZ 1 (Z.of_nat k + 1))
     = points_round year (get_total_driver_points year (seqZ 1 (Z.of_nat k)))
                    (Z.of_nat k + 1)
  /\ (dict_get (get_total_driver_points year (rounds ++ [rnd])) d 0
      == dict_get (get_total_driver_points year rounds) d 0
         + dict_get (get_total_driver_points year [rnd]) d 0)%Q.
Proof.
  split; [apply dict_get_nonneg, get_total_driver_points_nonneg|].
  split; [apply get_total_driver_points_nonneg|].
  split; [apply get_total_driver_points_snoc|].
  split.
  - rewrite <- get_total_driver_points_snoc. f_equal.
    replace (Z.of_nat k + 1) with (Z.of_nat (S k)) by lia.
    rewrite seqZ_S. f_equal. f_equal. lia.
  - rewrite get_total_driver_points_snoc, points_round_earned.
    change (get_total_driver_points year [rnd]) with (points_round year ∅ rnd).
    rewrite (points_round_earned year rnd ∅).
    unfold dict_get at 3. rewrite lookup_empty. simpl. ring.
Qed.

(** ** TrackHistoryAggregator: the seasons asked of the provider *)

Lemma elem_of_past_years (year y : Z) :
  y ∈ past_years year <-> 2018 <= y /\ year - 3 <= y <= year - 1.
Proof.
  unfold past_years, range. rewrite list_elem_of_filter, elem_of_seqZ. lia.
Qed.

Lemma track_year_log (circuit_name : string) (st : gmap string (list Z) * list Query)
    (y : Z) :
  exists rest, (track_year circuit_name st y).2 = st.2 ++ QSchedule y :: rest
               /\ Forall (fun q => query_season q = y) rest.
Proof.
  destruct st as [tp log]. unfold track_year. simpl.
  destruct (get_event_schedule y) as [schedule|]; [|exists []; split; [reflexivity|constructor]].
  destruct (str_contains circuit_name) as [matches|];
    [|exists []; split; [reflexivity|constructor]].
  destruct (List.filter _ schedule) as [|ev evs];
    [exists []; split; [reflexivity|constructor]|].
  exists [QSession y (RoundNumber ev) R].
  split; [|repeat constructor].
  destruct (get_session y (RoundNumber ev) R); simpl; rewrite <- app_assoc; reflexivity.
Qed.

Lemma track_fold_log (circuit_name : string) (P : Z -> Prop) (years : list Z) :
  Forall P years ->
  forall st, Forall (fun q => P (query_season q)) st.2 ->
    Forall (fun q => P (query_season q)) (fold_left (track_year circuit_name) years st).2.
Proof.
  induction 1 as [|y ys Hy _ IH]; intros st Hst; simpl; [exact Hst|].
  apply IH. destruct (track_year_log circuit_name st y) as (rest & -> & Hrest).
  apply Forall_app. split; [exact Hst|].
  constructor; [exact Hy|].
  eapply Forall_impl; [exact Hrest|]. intros q ->. exact Hy.
Qed.

Lemma track_fold_log_mono (circuit_name : string) (years : list Z) (q : Query) :
  forall st, q ∈ st.2 -> q ∈ (fold_left (track_year circuit_name) years st).2.
Proof.
  induction years as [|y ys IH]; intros st Hq; simpl; [exact Hq|].
  apply IH. destruct (track_year_log circuit_name st y) as (rest & -> & _).
  apply elem_of_app. left. exact Hq.
Qed.

Lemma track_fold_schedule_asked (circuit_name : string) (years : list Z) (y : Z) :
  y ∈ years ->
  forall st, QSchedule y ∈ (fold_left (track_year circuit_name) years st).2.
Proof.
  induction years as [|y' ys IH]; intros Hy st; [inversion Hy|].
  simpl. apply elem_of_cons in Hy as [->|Hy].
  - apply track_fold_log_mono.
    destruct (track_year_log circuit_name st y') as (rest & -> & _).
    apply elem_of_app. right. left.
  - apply IH, Hy.
Qed.

(** C6: every call [get_past_track_performance] makes to the provider, for a
    schedule or for a session, names a season between target-3 and target-1
    that is at least 2018; and each such season is asked for its schedule. *)
Theorem track_queries_within_window (circuit_name : string) (year : Z) :
  Forall (fun q => year - 3 <= query_season q <= year - 1 /\ 2018 <= query_season q)
         (track_queries circuit_name year)
  /\ forall y, year - 3 <= y <= year - 1 -> 2018 <= y ->
               QSchedule y ∈ track_queries circuit_name year.
Proof.
  unfold track_queries, track_history. split.
  - apply (track_fold_log circuit_name
             (fun y => year - 3 <= y <= year - 1 /\ 2018 <= y)).
    + apply Forall_forall. intros y Hy. apply elem_of_past_years in Hy. lia.
    + constructor.
  - intros y Hw Hy. apply track_fold_schedule_asked, elem_of_past_years. lia.
Qed.

(** ** The two mean-position aggregators *)

Lemma record_step_insert (d : gmap string (list Z)) (k : string) (p : Z) :
  <[k := dict_get (touch d k) k [] ++ [p]]> (touch d k)
  = <[k := dict_get d k [] ++ [p]]> d.
Proof.
  unfold touch, dict_get. destruct (d !! k) as [l|] eqn:E.
  - rewrite E. reflexivity.
  - rewrite lookup_insert_eq, insert_insert_eq. reflexivity.
Qed.

Lemma record_positions_all_recorded (key : ResultRow -> string)
    (results : list ResultRow) :
  (forall row, row ∈ results ->
     exists p, Position row = Some p /\ recorded key (key row) p) ->
  forall d, all_recorded key d -> all_recorded key (record_positions key d results).
Proof.
  induction results as [|row rest IH]; intros Hrows d Hd; simpl; [exact Hd|].
  destruct (Hrows row) as (p & Hp & Hrec); [left|]. rewrite Hp.
  rewrite record_step_insert. apply IH.
  - intros row' Hin. apply Hrows. right. exact Hin.
  - intros k l. rewrite lookup_insert. destruct (decide (key row = k)) as [<-|Hne].
    + intros [= <-]. split; [intros Hnil; apply app_eq_nil in Hnil as [_ [=]]|].
      apply Forall_app. split; [|repeat constructor; exact Hrec].
      unfold dict_get. destruct (d !! key row) as [l0|] eqn:E; simpl; [|constructor].
      apply (Hd _ _ E).
    + apply Hd.
Qed.

Lemma fetched_rows_recorded (key : ResultRow -> string) (y rnd : Z)
    (results : list ResultRow) :
  positions_convert ->
  get_session y rnd R = Some results ->
  forall row, row ∈ results ->
    exists p, Position row = Some p /\ recorded key (key row) p.
Proof.
  intros Hconv Hget row Hin.
  destruct (Hconv y rnd results row Hget Hin) as [p Hp].
  exists p. split; [exact Hp|]. exists y, rnd, results, row. auto.
Qed.

Lemma all_recorded_empty (key : ResultRow -> string) : all_recorded key ∅.
Proof. intros d l. rewrite lookup_empty. discriminate. Qed.

Lemma season_finishes_all_recorded (year : Z) (rounds : list Z) :
  positions_convert -> all_recorded DriverNumber (season_finishes year rounds).
Proof.
  intros Hconv. unfold season_finishes.
  assert (forall d, all_recorded DriverNumber d ->
            all_recorded DriverNumber (fold_left (finishes_round year) rounds d)) as Hgen.
  { induction rounds as [|r rs IH]; intros d Hd; simpl; [exact Hd|].
    apply IH. unfold finishes_round.
    destruct (get_session year r R) as [race|] eqn:E; [|exact Hd].
    apply record_positions_all_recorded; [|exact Hd].
    apply (fetched_rows_recorded DriverNumber year r race Hconv E). }
  apply Hgen, all_recorded_empty.
Qed.

Lemma track_year_all_recorded (circuit_name : string)
    (st : gmap string (list Z) * list Query) (y : Z) :
  positions_convert ->
  all_recorded FullName st.1 -> all_recorded FullName (track_year circuit_name st y).1.
Proof.
  intros Hconv Hst. destruct st as [tp log]. unfold track_year. simpl in *.
  destruct (get_event_schedule y) as [schedule|]; [|exact Hst].
  destruct (str_contains circuit_name) as [matches|]; [|exact Hst].
  destruct (List.filter _ schedule) as [|ev evs]; [exact Hst|].
  destruct (get_session y (RoundNumber ev) R) as [race|] eqn:E; [|exact Hst].
  simpl. apply record_positions_all_recorded; [|exact Hst].
  apply (fetched_rows_recorded FullName y (RoundNumber ev) race Hconv E).
Qed.

Lemma track_history_all_recorded (circuit_name : string) (year : Z) :
  positions_convert -> all_recorded FullName (track_history circuit_name year).1.
Proof.
  intros Hconv. unfold track_history.
  assert (forall st, all_recorded FullName st.1 ->
            all_recorded FullName
              (fold_left (track_year circuit_name) (past_years year) st).1) as Hgen.
  { induction (past_years year) as [|y ys IH]; intros st Hst; simpl; [exact Hst|].
    apply IH, track_year_all_recorded; assumption. }
  apply Hgen, all_recorded_empty.
Qed.

Lemma means_of_all_recorded (key : ResultRow -> string) (finishes : gmap string (list Z)) :
  all_recorded key finishes ->
  means_of_recorded key finishes (mean_or_default <$> finishes).
Proof.
  intros Hall d v. rewrite lookup_fmap.
  destruct (finishes !! d) as [l|] eqn:E; simpl; [|discriminate].
  intros [= <-]. destruct (Hall d l E) as [Hne Hrec].
  exists l. repeat split; try assumption.
  destruct l; [contradiction|reflexivity].
Qed.

Lemma fold_sum_lower_bound (l : list Z) :
  Forall (fun p => 1 <= p) l ->
  forall a, a + Z.of_nat (length l) <= fold_left Z.add l a.
Proof.
  induction 1 as [|p l Hp _ IH]; intros a; simpl; [lia|].
  specialize (IH (a + p)). lia.
Qed.

Lemma mean_at_least_one (l : list Z) :
  l <> [] -> Forall (fun p => 1 <= p) l -> (1 <= mean l)%Q.
Proof.
  intros Hne Hall. unfold mean. apply Qle_shift_div_l.
  - change 0%Q with (inject_Z 0). rewrite <- Zlt_Qlt.
    destruct l; [contradiction|simpl; lia].
  - rewrite Qmult_1_l, <- Zle_Qle.
    pose proof (fold_sum_lower_bound l Hall 0). lia.
Qed.

Lemma recorded_at_least_one (key : ResultRow -> string) (d : string) (l : list Z) :
  positions_at_least_one -> Forall (recorded key d) l -> Forall (fun p => 1 <= p) l.
Proof.
  intros Hpos Hrec. eapply Forall_impl; [exact Hrec|].
  intros p (y & rnd & results & row & Hget & Hin & _ & Hp).
  exact (Hpos y rnd results row p Hget Hin Hp).
Qed.

Lemma means_at_least_one (key : ResultRow -> string) (finishes : gmap string (list Z))
    (result : gmap string Q) :
  positions_at_least_one -> means_of_recorded key finishes result ->
  forall d v, result !! d = Some v -> (1 <= v)%Q.
Proof.
  intros Hpos Hmeans d v Hv.
  destruct (Hmeans d v Hv) as (l & _ & Hne & Hrec & ->).
  apply mean_at_least_one; [exact Hne|].
  exact (recorded_at_least_one key d l Hpos Hrec).
Qed.

(** C9, as the program has it: provided every Position cell of the fetched
    Race results converts to an integer, every value returned by
    get_avg_finish_pos and by get_past_track_performance is the mean of a
    non-empty list of recorded finish positions, so the [else 20] branch is
    not taken; if moreover the positions are all at least 1, so is every
    returned value. *)
Theorem aggregator_values_are_means (year : Z) (rounds : list Z) (circuit_name : string) :
  positions_convert ->
  (means_of_recorded DriverNumber (season_finishes year rounds)
                     (get_avg_finish_pos year rounds)
   /\ means_of_recorded FullName (track_history circuit_name year).1
                        (get_past_track_performance circuit_name year))
  /\ (positions_at_least_one ->
      (forall d v, get_avg_finish_pos year rounds !! d = Some v -> (1 <= v)%Q)
      /\ (forall d v, get_past_track_performance circuit_name year !! d = Some v ->
                      (1 <= v)%Q)).
Proof.
  intros Hconv.
  assert (means_of_recorded DriverNumber (season_finishes year rounds)
            (get_avg_finish_pos year rounds)) as Havg
    by (apply means_of_all_recorded, season_finishes_all_recorded, Hconv).
  assert (means_of_recorded FullName (track_history circuit_name year).1
            (get_past_track_performance circuit_name year)) as Htrack
    by (apply means_of_all_recorded, track_history_all_recorded, Hconv).
  split; [split; assumption|].
  intros Hpos. split.
  - exact (means_at_least_one _ _ _ Hpos Havg).
  - exact (means_at_least_one _ _ _ Hpos Htrack).
Qed.

(** ** The driver set and the name lookup *)

Lemma last_name_None (results : list ResultRow) (d : string) :
  last_name results d = None <-> forall row, row ∈ results -> DriverNumber row <> d.
Proof.
  induction results as [|row rest IH]; simpl.
  - split; [intros _ row H; inversion H|reflexivity].
  - destruct (last_name rest d) as [n|].
    + split; [discriminate|]. intros H. exfalso.
      assert (Some n = None) as [=]. apply IH. intros row' Hin. apply H. right. exact Hin.
    + destruct (decide (DriverNumber row = d)) as [Heq|Hne].
      * split; [discriminate|]. intros H. exfalso. apply (H row); [left|exact Heq].
      * split; [|reflexivity]. intros _ row' Hin.
        apply elem_of_cons in Hin as [->|Hin]; [exact Hne|].
        apply IH; [reflexivity|exact Hin].
Qed.

Lemma last_name_Some (results : list ResultRow) (d name : string) :
  last_name results d = Some name ->
  exists row, row ∈ results /\ DriverNumber row = d /\ FullName row = name.
Proof.
  induction results as [|row rest IH]; simpl; [discriminate|].
  destruct (last_name rest d) as [n|].
  - intros [= <-]. destruct IH as (row' & Hin & Hd & Hn); [reflexivity|].
    exists row'. split; [right; exact Hin|auto].
  - destruct (decide (DriverNumber row = d)); [|discriminate].
    intros [= <-]. exists row. split; [left|auto].
Qed.

Lemma collect_rows_drivers (rows : list ResultRow) (d : string) :
  forall st, d ∈ (fold_left collect_row rows st).1
             <-> (exists row, row ∈ rows /\ DriverNumber row = d) \/ d ∈ st.1.
Proof.
  induction rows as [|row rest IH]; intros st; simpl.
  - split; [auto|]. intros [(row & H & _)|H]; [inversion H|exact H].
  - rewrite IH. unfold collect_row at 1. simpl. rewrite elem_of_union, elem_of_singleton.
    split.
    + intros [(row' & Hin & Hd)|[->|Hst]].
      * left. exists row'. split; [right; exact Hin|exact Hd].
      * left. exists row. split; [left|reflexivity].
      * right. exact Hst.
    + intros [(row' & Hin & Hd)|Hst]; [|auto].
      apply elem_of_cons in Hin as [->|Hin]; [auto|].
      left. exists row'. auto.
Qed.

Lemma collect_rows_names (rows : list ResultRow) (d : string) :
  forall st, (fold_left collect_row rows st).2 !! d
             = match last_name rows d with
               | Some name => Some name
               | None => st.2 !! d
               end.
Proof.
  induction rows as [|row rest IH]; intros st; simpl; [reflexivity|].
  rewrite IH. destruct (last_name rest d) as [n|]; [reflexivity|].
  unfold collect_row. simpl. rewrite lookup_insert.
  destruct (decide (DriverNumber row = d)); reflexivity.
Qed.

Lemma collect_drivers_snoc (year : Z) (rounds : list Z) (rnd : Z) :
  collect_drivers year (rounds ++ [rnd])
  = collect_round year (collect_drivers year rounds) rnd.
Proof. unfold collect_drivers. rewrite fold_left_app. reflexivity. Qed.

Lemma season_drivers_raced (year : Z) (rounds : list Z) (d : string) :
  d ∈ season_drivers year rounds <-> raced year rounds d.
Proof.
  unfold season_drivers. induction rounds as [|rnd rs IH] using rev_ind.
  - unfold collect_drivers. simpl. split; [intros H; set_solver|].
    intros (rnd & _ & _ & H & _). inversion H.
  - rewrite collect_drivers_snoc. unfold collect_round.
    destruct (get_session year rnd R) as [race|] eqn:E.
    + rewrite collect_rows_drivers, IH. split.
      * intros [(row & Hin & Hd)|(r & res & row & Hr & Hget & Hin & Hd)].
        -- exists rnd, race, row. rewrite elem_of_app, list_elem_of_singleton. auto.
        -- exists r, res, row. rewrite elem_of_app. auto.
      * intros (r & res & row & Hr & Hget & Hin & Hd).
        apply elem_of_app in Hr as [Hr|Hr].
        -- right. exists r, res, row. auto.
        -- apply list_elem_of_singleton in Hr as ->. rewrite E in Hget.
           injection Hget as <-. left. exists row. auto.
    + rewrite IH. split.
      * intros (r & res & row & Hr & Hget & Hin & Hd).
        exists r, res, row. rewrite elem_of_app. auto.
      * intros (r & res & row & Hr & Hget & Hin & Hd).
        apply elem_of_app in Hr as [Hr|Hr].
        -- exists r, res, row. auto.
        -- apply list_elem_of_singleton in Hr as ->. rewrite E in Hget. discriminate.
Qed.

Lemma name_lookup_last_round (year : Z) (rounds : list Z) (d : string) :
  d ∈ season_drivers year rounds ->
  exists before rnd after results name,
    rounds = before ++ rnd :: after
    /\ get_session year rnd R = Some results
    /\ last_name results d = Some name
    /\ (forall r, r ∈ after -> forall res, get_session year r R = Some res ->
                                           last_name res d = None)
    /\ name_lookup year rounds !! d = Some name.
Proof.
  unfold season_drivers, name_lookup.
  induction rounds as [|rnd rs IH] using rev_ind.
  - unfold collect_drivers. simpl. intros H. set_solver.
  - rewrite collect_drivers_snoc. unfold collect_round.
    destruct (get_session year rnd R) as [race|] eqn:E.
    + rewrite collect_rows_drivers, collect_rows_names.
      destruct (last_name race d) as [n|] eqn:En.
      * intros _. exists rs, rnd, [], race, n. repeat split; try assumption.
        intros r Hr. inversion Hr.
      * intros [(row & Hin & Hd)|Hst].
        { exfalso. apply (proj1 (last_name_None race d) En row Hin Hd). }
        destruct (IH Hst) as (before & r0 & after & res & name & -> & Hget & Hl & Haft & Hn).
        exists before, r0, (after ++ [rnd]), res, name.
        rewrite <- app_assoc. repeat split; try assumption.
        intros r Hr res' Hget'. apply elem_of_app in Hr as [Hr|Hr].
        -- exact (Haft r Hr res' Hget').
        -- apply list_elem_of_singleton in Hr as ->. rewrite E in Hget'.
           injection Hget' as <-. exact En.
    + intros Hst.
      destruct (IH Hst) as (before & r0 & after & res & name & -> & Hget & Hl & Haft & Hn).
      exists before, r0, (after ++ [rnd]), res, name.
      rewrite <- app_assoc. repeat split; try assumption.
      intros r Hr res' Hget'. apply elem_of_app in Hr as [Hr|Hr].
      * exact (Haft r Hr res' Hget').
      * apply list_elem_of_singleton in Hr as ->. rewrite E in Hget'. discriminate.
Qed.

(** ** The ranked table *)

Lemma map_imap_map {A B C D : Type} (g : C -> D) (h : nat -> B -> C) (f : A -> B)
    (l : list A) :
  map g (imap h (map f l)) = imap (fun i x => g (h i (f x))) l.
Proof.
  revert h. induction l as [|x l IH]; intros h; [reflexivity|].
  simpl. f_equal. apply IH.
Qed.

Lemma score_table_rows (year : Z) (circuit_name : string) (rounds : list Z) :
  score_table year circuit_name rounds
  = map (driver_row year circuit_name rounds) (set_iter (season_drivers year rounds)).
Proof. unfold score_table, data_rows. simpl. rewrite map_map. reflexivity. Qed.

Lemma predict_table_rows (year : Z) (circuit_name : string) (rounds : list Z) :
  exists ds,
    ds ≡ₚ elements (season_drivers year rounds)
    /\ sort_values (score_table year circuit_name rounds)
       = map (driver_row year circuit_name rounds) ds
    /\ predict_table year circuit_name rounds
       = imap (printed_row year circuit_name rounds) ds.
Proof.
  pose proof (sort_values_perm (score_table year circuit_name rounds)) as Hperm.
  rewrite score_table_rows in Hperm at 2.
  apply Permutation_map_inv in Hperm as (ds & Heq & Hds).
  exists ds. split; [|split].
  - rewrite <- Hds. apply set_iter_perm.
  - exact Heq.
  - unfold predict_table, assign_rank. rewrite Heq. apply map_imap_map.
Qed.

Lemma imap_ranks {A : Type} (f : nat -> A -> PredictionRow) (l : list A) :
  (forall i x, PredictedRank (f i x) = Z.of_nat i + 1) ->
  map PredictedRank (imap f l) = seqZ 1 (Z.of_nat (length l)).
Proof.
  intros Hf. apply list_eq. intros i.
  change (map PredictedRank (imap f l)) with (PredictedRank <$> imap f l).
  rewrite list_lookup_fmap, list_lookup_imap.
  destruct (l !! i) as [x|] eqn:E; simpl.
  - rewrite Hf. symmetry. rewrite lookup_seqZ. split; [lia|].
    apply lookup_lt_Some in E. lia.
  - symmetry. apply lookup_seqZ_ge. apply lookup_ge_None in E. lia.
Qed.

Lemma driver_is_printed (year : Z) (circuit_name : string) (rounds : list Z) (d : string) :
  d ∈ season_drivers year rounds ->
  exists i, predict_table year circuit_name rounds !! i
            = Some (printed_row year circuit_name rounds i d).
Proof.
  intros Hd. destruct (predict_table_rows year circuit_name rounds) as (ds & Hds & _ & ->).
  apply elem_of_elements in Hd. rewrite <- Hds in Hd.
  apply list_elem_of_lookup in Hd as [i Hi].
  exists i. rewrite list_lookup_imap, Hi. reflexivity.
Qed.

Lemma sorted_head_is_max (ranked : list ScoredRow) (top s : ScoredRow) :
  StronglySorted score_ge ranked -> head ranked = Some top -> s ∈ ranked ->
  (CustomScore s <= CustomScore top)%Q.
Proof.
  intros Hsorted Hhead Hs. destruct ranked as [|t rest]; [discriminate|].
  injection Hhead as ->. apply StronglySorted_inv in Hsorted as [_ Hall].
  apply elem_of_cons in Hs as [->|Hs]; [apply Qle_refl|].
  rewrite Forall_forall in Hall. exact (Hall s Hs).
Qed.

Lemma predict_race_table (year : Z) (circuit_name : string) (now : Z)
    (rows : list PredictionRow) :
  predict_race year circuit_name now = Table rows ->
  exists schedule,
    get_event_schedule year = Some schedule
    /\ rows = predict_table year circuit_name (completed_rounds schedule now).
Proof.
  unfold predict_race.
  destruct (get_event_schedule year) as [schedule|]; [|discriminate].
  destruct (str_contains circuit_name) as [matches|]; [|discriminate].
  destruct (List.filter _ schedule); [discriminate|].
  intros [= <-]. exists schedule. split; reflexivity.
Qed.

(** C2, as the program has it: the printed table holds one row per driver
    who is listed in the Race result of at least one completed round, and no
    other row. *)
Theorem table_lists_race_drivers (year : Z) (circuit_name : string) (rounds : list Z) :
  exists ds,
    NoDup ds
    /\ predict_table year circuit_name rounds
       = imap (printed_row year circuit_name rounds) ds
    /\ forall d, d ∈ ds <-> raced year rounds d.
Proof.
  destruct (predict_table_rows year circuit_name rounds) as (ds & Hds & _ & Htable).
  exists ds. split; [|split].
  - rewrite Hds. apply NoDup_elements.
  - exact Htable.
  - intros d. rewrite Hds, elem_of_elements. apply season_drivers_raced.
Qed.

(** C3: for every driver of the season's driver set the table before sorting
    has a row whose score is points*20 + (-mean)*25 + (-trackMean)*25, with
    points and mean looked up by driver number (defaults 0 and 20) and the
    track mean looked up by the driver's full name (default 20); the printed
    table shows that row with its numbers rounded. *)
Theorem score_formula (year : Z) (circuit_name : string) (rounds : list Z) (d : string) :
  d ∈ season_drivers year rounds ->
  let name := dict_get (name_lookup year rounds) d ("Driver #" ++ d)%string in
  let points := dict_get (get_total_driver_points year rounds) d 0%Q in
  let mean_finish := dict_get (get_avg_finish_pos year rounds) d 20%Q in
  let track_mean := dict_get (get_past_track_performance circuit_name year) name 20%Q in
  exists s,
    s ∈ score_table year circuit_name rounds
    /\ Driver (columns s) = name
    /\ Points (columns s) = points
    /\ AvgFinishPos (columns s) = mean_finish
    /\ TrackAvgPos (columns s) = track_mean
    /\ CustomScore s = (points * 20 + (- mean_finish) * 25 + (- track_mean) * 25)%Q
    /\ exists i, predict_table year circuit_name rounds !! i
                 = Some {| PredictedRank := Z.of_nat i + 1; scored := round_columns s |}.
Proof.
  intros Hd. simpl.
  exists (driver_row year circuit_name rounds d).
  split; [|repeat split; try reflexivity].
  - rewrite score_table_rows. apply list_elem_of_In, in_map, list_elem_of_In.
    rewrite set_iter_perm. apply elem_of_elements, Hd.
  - exact (driver_is_printed year circuit_name rounds d Hd).
Qed.

(** C4: the printed table is the score table rearranged so that the unrounded
    scores do not increase, each row then numbered by its position and only
    afterwards rounded; the ranks are exactly 1..N for the N drivers of the
    season, and when there is a driver the row ranked first has the greatest
    unrounded score. *)
Theorem ranking_dense_and_descending (year : Z) (circuit_name : string)
    (rounds : list Z) :
  exists ranked,
    ranked ≡ₚ score_table year circuit_name rounds
    /\ StronglySorted score_ge ranked
    /\ predict_table year circuit_name rounds
       = imap (fun i s => {| PredictedRank := Z.of_nat i + 1;
                             scored := round_columns s |}) ranked
    /\ map PredictedRank (predict_table year circuit_name rounds)
       = seqZ 1 (Z.of_nat (size (season_drivers year rounds)))
    /\ (season_drivers year rounds <> ∅ ->
        exists top, head ranked = Some top
                    /\ forall s, s ∈ score_table year circuit_name rounds ->
                                 (CustomScore s <= CustomScore top)%Q).
Proof.
  exists (sort_values (score_table year circuit_name rounds)).
  pose proof (sort_values_perm (score_table year circuit_name rounds)) as Hperm.
  pose proof (sort_values_sorted (score_table year circuit_name rounds)) as Hsorted.
  split; [exact Hperm|]. split; [exact Hsorted|]. split; [|split].
  - unfold predict_table, assign_rank.
    rewrite <- (map_id (sort_values _)) at 1. rewrite map_imap_map. reflexivity.
  - destruct (predict_table_rows year circuit_name rounds) as (ds & Hds & _ & ->).
    rewrite imap_ranks by reflexivity.
    rewrite Hds. reflexivity.
  - intros Hne.
    destruct (sort_values (score_table year circuit_name rounds)) as [|top rest] eqn:E.
    + exfalso. apply Hne. apply Permutation_nil_l in Hperm.
      rewrite score_table_rows in Hperm. symmetry in Hperm. apply map_eq_nil in Hperm.
      pose proof (set_iter_perm (season_drivers year rounds)) as Hiter.
      rewrite Hperm in Hiter. apply Permutation_nil_l in Hiter.
      apply leibniz_equiv, elements_empty_inv. symmetry. exact Hiter.
    + exists top. split; [reflexivity|]. intros s Hs.
      apply (sorted_head_is_max (top :: rest)); [exact Hsorted|reflexivity|].
      rewrite Hperm. exact Hs.
Qed.

(** C8: when the Race fetch fails for every completed round, no driver is
    collected and the scoring-and-ranking stage returns the empty table. *)
Theorem no_driver_gives_empty_table (year : Z) (circuit_name : string) (rounds : list Z) :
  (forall rnd, rnd ∈ rounds -> get_session year rnd R = None) ->
  season_drivers year rounds = ∅
  /\ predict_table year circuit_name rounds = [].
Proof.
  intros Hfail.
  assert (season_drivers year rounds = ∅) as Hempty.
  { apply leibniz_equiv. apply elem_of_equiv_empty. intros d Hd.
    apply season_drivers_raced in Hd as (rnd & res & row & Hr & Hget & _).
    rewrite (Hfail rnd Hr) in Hget. discriminate. }
  split; [exact Hempty|].
  destruct (predict_table_rows year circuit_name rounds) as (ds & Hds & _ & ->).
  rewrite Hempty, elements_empty in Hds. apply Permutation_nil_r in Hds as ->.
  reflexivity.
Qed.

(** C10: for every driver of the season's driver set, the name shown in the
    table, which is also the key of the track-history lookup, is the full
    name of the driver's last row in the Race result of the last completed
    round, in iteration order, whose Race fetch succeeded and listed the
    driver. *)
Theorem displayed_name_is_latest (year : Z) (circuit_name : string) (rounds : list Z)
    (d : string) :
  d ∈ season_drivers year rounds ->
  exists before rnd after results name,
    rounds = before ++ rnd :: after
    /\ get_session year rnd R = Some results
    /\ last_name results d = Some name
    /\ (forall r, r ∈ after -> forall res, get_session year r R = Some res ->
           forall row, row ∈ res -> DriverNumber row <> d)
    /\ Driver (columns (driver_row year circuit_name rounds d)) = name
    /\ TrackAvgPos (columns (driver_row year circuit_name rounds d))
       = dict_get (get_past_track_performance circuit_name year) name 20%Q
    /\ exists i, predict_table year circuit_name rounds !! i
                 = Some (printed_row year circuit_name rounds i d).
Proof.
  intros Hd.
  destruct (name_lookup_last_round year rounds d Hd)
    as (before & rnd & after & results & name & Hsplit & Hget & Hlast & Hafter & Hname).
  exists before, rnd, after, results, name.
  assert (Driver (columns (driver_row year circuit_name rounds d)) = name) as Hshown.
  { unfold driver_row, add_score, make_row, dict_get. simpl. rewrite Hname. reflexivity. }
  repeat split; try assumption.
  - intros r Hr res Hres. apply last_name_None. exact (Hafter r Hr res Hres).
  - unfold driver_row, add_score, make_row, dict_get. simpl. rewrite Hname. reflexivity.
  - exact (driver_is_printed year circuit_name rounds d Hd).
Qed.

(** ** Further properties of get_total_driver_points *)

Lemma fold_points_round_earned (year : Z) (rounds : list Z) (d : string) :
  forall points,
    (dict_get (fold_left (points_round year) rounds points) d 0
     == dict_get points d 0 + inject_Z (total_earned year rounds d))%Q.
Proof.
  induction rounds as [|rnd rs IH]; intros points; simpl.
  - ring.
  - rewrite IH, points_round_earned, inject_Z_plus. ring.
Qed.

Lemma total_points_closed_form_aux (year : Z) (rounds : list Z) (d : string) :
  (dict_get (get_total_driver_points year rounds) d 0
   == inject_Z (total_earned year rounds d))%Q.
Proof.
  unfold get_total_driver_points. rewrite fold_points_round_earned.
  unfold dict_get. rewrite lookup_empty. simpl. ring.
Qed.

(** X1: The total of a driver is the integer obtained by adding, over the rounds,
    what the two tables credit the driver in each round. *)
Theorem total_points_closed_form (year : Z) (rounds : list Z) (d : string) :
  (dict_get (get_total_driver_points year rounds) d 0
   == inject_Z (total_earned year rounds d))%Q.
Proof.
  unfold get_total_driver_points. rewrite fold_points_round_earned.
  unfold dict_get. rewrite lookup_empty. simpl. ring.
Qed.

Lemma total_earned_perm (year : Z) (d : string) (rounds rounds' : list Z) :
  rounds ≡ₚ rounds' -> total_earned year rounds d = total_earned year rounds' d.
Proof.
  unfold total_earned. induction 1 as [|r l l' _ IH|r r' l|l l' l'' _ IH1 _ IH2]; simpl.
  - reflexivity.
  - rewrite IH. reflexivity.
  - lia.
  - rewrite IH1. exact IH2.
Qed.

(** X2: The totals do not depend on the order in which the rounds are listed. *)
Theorem total_points_order_independent (year : Z) (rounds rounds' : list Z) (d : string) :
  rounds ≡ₚ rounds' ->
  (dict_get (get_total_driver_points year rounds) d 0
   == dict_get (get_total_driver_points year rounds') d 0)%Q.
Proof.
  intros Hperm. unfold get_total_driver_points.
  rewrite !fold_points_round_earned.
  rewrite (total_earned_perm year d rounds rounds' Hperm). reflexivity.
Qed.

Lemma award_step_entry (table : list Z) (limit : nat) (points : gmap string Q)
    (i : nat) (row : ResultRow) (d : string) :
  is_Some (award_step table limit points (i, row) !! d)
  <-> is_Some (points !! d) \/ ((i <= limit)%nat /\ DriverNumber row = d).
Proof.
  unfold award_step. destruct (Nat.leb_spec i limit) as [Hle|Hgt].
  - unfold add_points. rewrite lookup_insert.
    destruct (decide (DriverNumber row = d)) as [Heq|Hne].
    + split; [intros _; right; auto|intros _; eexists; reflexivity].
    + split; [auto|]. intros [H|[_ H]]; [exact H|contradiction].
  - split; [auto|]. intros [H|[H _]]; [exact H|lia].
Qed.

Lemma award_from_entry (table : list Z) (limit : nat) (d : string)
    (results : list ResultRow) :
  forall start points,
    is_Some (fold_left (award_step table limit) (enumerate start results) points !! d)
    <-> is_Some (points !! d)
        \/ exists i row, results !! i = Some row /\ (start + i <= limit)%nat
                         /\ DriverNumber row = d.
Proof.
  induction results as [|r rest IH]; intros start points; cbn [enumerate fold_left].
  - split; [auto|]. intros [H|(i & row & Hi & _)]; [exact H|discriminate].
  - rewrite IH, award_step_entry. split.
    + intros [[H|[Hle Hd]]|(i & row & Hi & Hle & Hd)].
      * left. exact H.
      * right. exists 0%nat, r. rewrite Nat.add_0_r. auto.
      * right. exists (S i), row. split; [exact Hi|]. split; [lia|exact Hd].
    + intros [H|(i & row & Hi & Hle & Hd)]; [auto|].
      destruct i as [|i]; simpl in Hi.
      * injection Hi as ->. left. right. split; [lia|exact Hd].
      * right. exists i, row. split; [exact Hi|]. split; [lia|exact Hd].
Qed.

Lemma award_entry (table : list Z) (limit : nat) (points : gmap string Q)
    (results : list ResultRow) (d : string) :
  is_Some (award table limit points results !! d)
  <-> is_Some (points !! d) \/ scored_in limit results d.
Proof.
  unfold award, scored_in. rewrite award_from_entry.
  split; (intros [H|(i & row & Hi & Hle & Hd)]; [auto|]);
    right; exists i, row; (split; [exact Hi|]); (split; [lia|exact Hd]).
Qed.

Lemma add_points_positive (points : gmap string Q) (k : string) (v : Z) :
  1 <= v -> positive_points points -> positive_points (add_points points k v).
Proof.
  intros Hv H. unfold add_points. apply map_Forall_insert_2; [|exact H].
  assert (1 <= inject_Z v)%Q as Hq.
  { change 1%Q with (inject_Z 1). rewrite <- Zle_Qle. exact Hv. }
  assert (0 <= dict_get points k 0)%Q as H0.
  { unfold dict_get. destruct (points !! k) as [w|] eqn:E; simpl; [|apply Qle_refl].
    apply Qle_trans with 1%Q; [discriminate|exact (H k w E)]. }
  exact (Qplus_le_compat 0 _ 1 _ H0 Hq).
Qed.

Lemma award_positive (table : list Z) (limit : nat) (results : list ResultRow) :
  (forall i, (1 <= i)%nat -> (i <= limit)%nat -> 1 <= nth (i - 1) table 0) ->
  forall start points,
    (1 <= start)%nat ->
    positive_points points ->
    positive_points (fold_left (award_step table limit) (enumerate start results) points).
Proof.
  intros Ht. induction results as [|row rest IH]; intros start points Hs H; simpl;
    [exact H|].
  apply IH; [lia|]. destruct (Nat.leb_spec start limit) as [Hle|Hgt]; [|exact H].
  apply add_points_positive; [apply Ht; assumption|exact H].
Qed.

Lemma race_table_positive (i : nat) :
  (1 <= i)%nat -> (i <= 10)%nat -> 1 <= nth (i - 1) FIA_POINTS_RACE 0.
Proof.
  intros H1 H10. destruct i as [|i]; [lia|].
  do 10 (destruct i as [|i]; [simpl; lia|]). lia.
Qed.

Lemma sprint_table_positive (i : nat) :
  (1 <= i)%nat -> (i <= 8)%nat -> 1 <= nth (i - 1) FIA_POINTS_SPRINT 0.
Proof.
  intros H1 H8. destruct i as [|i]; [lia|].
  do 8 (destruct i as [|i]; [simpl; lia|]). lia.
Qed.

Lemma points_round_positive (year rnd : Z) (points : gmap string Q) :
  positive_points points -> positive_points (points_round year points rnd).
Proof.
  intros H. unfold points_round.
  destruct (get_session year rnd R) as [race|]; [|exact H].
  assert (positive_points (award FIA_POINTS_RACE 10 points race)) as Hrace
    by (apply award_positive; [apply race_table_positive | lia | exact H]).
  destruct (get_session year rnd Sprint) as [sprint|]; [|exact Hrace].
  apply award_positive; [apply sprint_table_positive | lia | exact Hrace].
Qed.

Lemma points_round_entry (year rnd : Z) (points : gmap string Q) (d : string) :
  is_Some (points_round year points rnd !! d)
  <-> is_Some (points !! d)
      \/ exists race, get_session year rnd R = Some race
                      /\ (scored_in 10 race d
                          \/ exists sprint, get_session year rnd Sprint = Some sprint
                                            /\ scored_in 8 sprint d).
Proof.
  unfold points_round. destruct (get_session year rnd R) as [race|].
  - destruct (get_session year rnd Sprint) as [sprint|].
    + rewrite !award_entry. split.
      * intros [[H|H]|H]; [auto| |].
        -- right. exists race. auto.
        -- right. exists race. split; [reflexivity|]. right. exists sprint. auto.
      * intros [H|(race' & [= <-] & [H|(sprint' & [= <-] & H)])]; auto.
    + rewrite award_entry. split.
      * intros [H|H]; [auto|]. right. exists race. auto.
      * intros [H|(race' & [= <-] & [H|(sprint' & [=] & _)])]; auto.
  - split; [auto|]. intros [H|(race' & [=] & _)]. exact H.
Qed.

(** X3: The mapping has an entry for a driver exactly when, in some round whose
    Race result was fetched, the driver is listed in the first ten rows of
    the Race result or in the first eight rows of a fetched Sprint result;
    no entry holds less than one point, so a driver who never scored is
    absent rather than stored with zero. *)
Theorem points_entries (year : Z) (rounds : list Z) (d : string) :
  (is_Some (get_total_driver_points year rounds !! d)
   <-> exists rnd race,
         rnd ∈ rounds /\ get_session year rnd R = Some race
         /\ (scored_in 10 race d
             \/ exists sprint, get_session year rnd Sprint = Some sprint
                               /\ scored_in 8 sprint d))
  /\ positive_points (get_total_driver_points year rounds).
Proof.
  unfold get_total_driver_points. split.
  - induction rounds as [|rnd rs IH] using rev_ind.
    + simpl. rewrite lookup_empty. split; [intros [? [=]]|].
      intros (rnd & _ & H & _). inversion H.
    + rewrite fold_left_app. simpl. rewrite points_round_entry, IH. split.
      * intros [(r & race & Hr & Hrest)|(race & Hrest)].
        -- exists r, race. rewrite elem_of_app. auto.
        -- exists rnd, race. rewrite elem_of_app, list_elem_of_singleton. auto.
      * intros (r & race & Hr & Hrest). apply elem_of_app in Hr as [Hr|Hr].
        -- left. exists r, race. auto.
        -- apply list_elem_of_singleton in Hr as ->. right. exists race. exact Hrest.
  - assert (forall points, positive_points points ->
              positive_points (fold_left (points_round year) rounds points)) as Hgen.
    { induction rounds as [|r rs IH]; intros points H; simpl; [exact H|].
      apply IH, points_round_positive, H. }
    apply Hgen, map_Forall_empty.
Qed.

(** ** Further properties of get_avg_finish_pos and of the driver collection *)

Lemma dict_get_touch (d : gmap string (list Z)) (k k' : string) :
  dict_get (touch d k) k' [] = dict_get d k' [].
Proof.
  unfold touch, dict_get. destruct (d !! k) as [l|] eqn:E; [reflexivity|].
  rewrite lookup_insert. destruct (decide (k = k')) as [<-|]; [|reflexivity].
  rewrite E. reflexivity.
Qed.

Lemma touch_entry (d : gmap string (list Z)) (k k' : string) :
  is_Some (touch d k !! k') <-> is_Some (d !! k') \/ k = k'.
Proof.
  unfold touch. destruct (d !! k) as [l|] eqn:E.
  - split; [auto|]. intros [H|<-]; [exact H|]. rewrite E. eexists. reflexivity.
  - rewrite lookup_insert. destruct (decide (k = k')) as [<-|Hne].
    + split; [auto|]. intros _. eexists. reflexivity.
    + split; [auto|]. intros [H|H]; [exact H|contradiction].
Qed.

Lemma positions_of_cons (key : ResultRow -> string) (row : ResultRow)
    (rest : list ResultRow) (d : string) :
  positions_of key (row :: rest) d
  = (if decide (key row = d) then option_list (Position row) else [])
    ++ positions_of key rest d.
Proof.
  unfold positions_of. cbn [omap list_omap].
  destruct (decide (key row = d)); [|reflexivity].
  destruct (Position row); reflexivity.
Qed.

Lemma positions_of_app (key : ResultRow -> string) (l1 l2 : list ResultRow) (d : string) :
  positions_of key (l1 ++ l2) d = positions_of key l1 d ++ positions_of key l2 d.
Proof. unfold positions_of. apply omap_app. Qed.

Lemma record_positions_closed_form (key : ResultRow -> string) (d : string)
    (results : list ResultRow) :
  forall m, dict_get (record_positions key m results) d []
            = dict_get m d [] ++ positions_of key (classified_prefix results) d.
Proof.
  induction results as [|row rest IH]; intros m; cbn [record_positions classified_prefix].
  - rewrite app_nil_r. reflexivity.
  - destruct (Position row) as [p|] eqn:Hp.
    + rewrite record_step_insert, IH, positions_of_cons, Hp.
      unfold dict_get at 1. rewrite lookup_insert.
      destruct (decide (key row = d)) as [<-|Hne]; simpl.
      * rewrite <- app_assoc. reflexivity.
      * reflexivity.
    + rewrite dict_get_touch, app_nil_r. reflexivity.
Qed.

Lemma record_positions_entry (key : ResultRow -> string) (d : string)
    (results : list ResultRow) :
  forall m, is_Some (record_positions key m results !! d)
            <-> is_Some (m !! d) \/ exists row, row ∈ rows_reached results /\ key row = d.
Proof.
  induction results as [|row rest IH]; intros m; cbn [record_positions rows_reached].
  - split; [auto|]. intros [H|(row & H & _)]; [exact H|inversion H].
  - destruct (Position row) as [p|] eqn:Hp.
    + rewrite record_step_insert, IH, lookup_insert. split.
      * intros [H|(row' & Hin & Hd)].
        -- destruct (decide (key row = d)) as [Heq|Hne]; [|auto].
           right. exists row. split; [left|exact Heq].
        -- right. exists row'. split; [right; exact Hin|exact Hd].
      * intros [H|(row' & Hin & Hd)].
        -- left. destruct (decide (key row = d)); [eexists; reflexivity|exact H].
        -- apply elem_of_cons in Hin as [->|Hin].
           ++ left. rewrite decide_True by exact Hd. eexists. reflexivity.
           ++ right. exists row'. auto.
    + rewrite touch_entry. split.
      * intros [H|Hd]; [auto|]. right. exists row. split; [left|exact Hd].
      * intros [H|(row' & Hin & Hd)]; [auto|].
        apply list_elem_of_singleton in Hin as ->. auto.
Qed.

Lemma rows_reached_subset (results : list ResultRow) (row : ResultRow) :
  row ∈ rows_reached results -> row ∈ results.
Proof.
  induction results as [|r rest IH]; cbn [rows_reached]; [auto|].
  destruct (Position r).
  - intros H. apply elem_of_cons in H as [->|H]; [left|right; auto].
  - intros H. apply list_elem_of_singleton in H as ->. left.
Qed.

Lemma rows_reached_all (results : list ResultRow) :
  (forall row, row ∈ results -> is_Some (Position row)) -> rows_reached results = results.
Proof.
  induction results as [|r rest IH]; intros H; cbn [rows_reached]; [reflexivity|].
  destruct (H r) as [p ->]; [left|]. rewrite IH; [reflexivity|].
  intros row Hin. apply H. right. exact Hin.
Qed.

Lemma season_finishes_snoc (year : Z) (rounds : list Z) (rnd : Z) :
  season_finishes year (rounds ++ [rnd])
  = finishes_round year (season_finishes year rounds) rnd.
Proof. unfold season_finishes. rewrite fold_left_app. reflexivity. Qed.

Lemma race_rows_read_snoc (year : Z) (rounds : list Z) (rnd : Z) :
  race_rows_read year (rounds ++ [rnd])
  = race_rows_read year rounds
    ++ match get_session year rnd R with
       | Some race => classified_prefix race
       | None => []
       end.
Proof. unfold race_rows_read. rewrite flat_map_app. simpl. rewrite app_nil_r. reflexivity. Qed.

Lemma season_finishes_entry (year : Z) (rounds : list Z) (d : string) :
  is_Some (season_finishes year rounds !! d)
  <-> exists rnd race row,
        rnd ∈ rounds /\ get_session year rnd R = Some race
        /\ row ∈ rows_reached race /\ DriverNumber row = d.
Proof.
  induction rounds as [|rnd rs IH] using rev_ind.
  - unfold season_finishes. simpl. rewrite lookup_empty. split; [intros [? [=]]|].
    intros (rnd & _ & _ & H & _). inversion H.
  - rewrite season_finishes_snoc. unfold finishes_round.
    destruct (get_session year rnd R) as [race|] eqn:E.
    + rewrite record_positions_entry, IH. split.
      * intros [(r & res & row & Hr & Hrest)|(row & Hin & Hd)].
        -- exists r, res, row. rewrite elem_of_app. auto.
        -- exists rnd, race, row. rewrite elem_of_app, list_elem_of_singleton. auto.
      * intros (r & res & row & Hr & Hget & Hin & Hd).
        apply elem_of_app in Hr as [Hr|Hr].
        -- left. exists r, res, row. auto.
        -- apply list_elem_of_singleton in Hr as ->. rewrite E in Hget.
           injection Hget as <-. right. exists row. auto.
    + rewrite IH. split.
      * intros (r & res & row & Hr & Hrest). exists r, res, row.
        rewrite elem_of_app. auto.
      * intros (r & res & row & Hr & Hget & Hrest).
        apply elem_of_app in Hr as [Hr|Hr].
        -- exists r, res, row. auto.
        -- apply list_elem_of_singleton in Hr as ->. rewrite E in Hget. discriminate.
Qed.

Lemma season_finishes_positions (year : Z) (rounds : list Z) (d : string) :
  dict_get (season_finishes year rounds) d []
  = positions_of DriverNumber (race_rows_read year rounds) d.
Proof.
  induction rounds as [|rnd rs IH] using rev_ind; [reflexivity|].
  rewrite season_finishes_snoc, race_rows_read_snoc, positions_of_app, <- IH.
  unfold finishes_round. destruct (get_session year rnd R) as [race|].
  - apply record_positions_closed_form.
  - rewrite app_nil_r. reflexivity.
Qed.

Lemma get_avg_finish_pos_value (year : Z) (rounds : list Z) (d : string) (v : Q) :
  get_avg_finish_pos year rounds !! d = Some v ->
  v = mean_or_default (positions_of DriverNumber (race_rows_read year rounds) d).
Proof.
  unfold get_avg_finish_pos.
  rewrite lookup_fmap, <- season_finishes_positions. unfold dict_get.
  destruct (season_finishes year rounds !! d) as [l|]; simpl; [|discriminate].
  intros [= <-]. reflexivity.
Qed.

(** X6: The list [get_avg_finish_pos] averages for a driver holds, in reading
    order, the positions of the driver's rows that come before the first
    non-converting row of each fetched Race result; rounds whose fetch fails
    and rows from the first non-converting one on contribute nothing.  Every
    returned value is the mean of that list, or 20 when it is empty. *)
Theorem avg_finish_closed_form (year : Z) (rounds : list Z) (d : string) :
  dict_get (season_finishes year rounds) d []
  = positions_of DriverNumber (race_rows_read year rounds) d
  /\ forall v, get_avg_finish_pos year rounds !! d = Some v ->
               v = mean_or_default
                     (positions_of DriverNumber (race_rows_read year rounds) d).
Proof.
  split; [apply season_finishes_positions|].
  intros v. apply get_avg_finish_pos_value.
Qed.

(** X7: A driver has an entry in the result of [get_avg_finish_pos] exactly when
    one of the driver's rows is reached by the recording loop: it lies in a
    fetched Race result with no non-converting row in front of it.  Every
    such driver belongs to the driver set of [predict_race]. *)
Theorem avg_finish_entries (year : Z) (rounds : list Z) (d : string) :
  (is_Some (get_avg_finish_pos year rounds !! d)
   <-> exists rnd race row,
         rnd ∈ rounds /\ get_session year rnd R = Some race
         /\ row ∈ rows_reached race /\ DriverNumber row = d)
  /\ (is_Some (get_avg_finish_pos year rounds !! d) -> d ∈ season_drivers year rounds).
Proof.
  assert (is_Some (get_avg_finish_pos year rounds !! d)
          <-> is_Some (season_finishes year rounds !! d)) as Hfmap.
  { unfold get_avg_finish_pos. rewrite lookup_fmap. apply fmap_is_Some. }
  split.
  - rewrite Hfmap. apply season_finishes_entry.
  - rewrite Hfmap, season_finishes_entry.
    intros (rnd & race & row & Hr & Hget & Hin & Hd).
    apply season_drivers_raced. exists rnd, race, row.
    split; [exact Hr|]. split; [exact Hget|].
    split; [apply rows_reached_subset, Hin|exact Hd].
Qed.

(** X8: When every Position cell converts, the drivers with a mean finish
    position are exactly the drivers of the table, so the default 20 for the
    AvgFinishPos column is never used. *)
Theorem avg_finish_covers_table (year : Z) (rounds : list Z) (d : string) :
  positions_convert ->
  (d ∈ season_drivers year rounds <-> is_Some (get_avg_finish_pos year rounds !! d)).
Proof.
  intros Hconv.
  assert (is_Some (get_avg_finish_pos year rounds !! d)
          <-> is_Some (season_finishes year rounds !! d)) as ->.
  { unfold get_avg_finish_pos. rewrite lookup_fmap. apply fmap_is_Some. }
  rewrite season_finishes_entry, season_drivers_raced. unfold raced. split.
  - intros (rnd & race & row & Hr & Hget & Hin & Hd). exists rnd, race, row.
    rewrite (rows_reached_all race) by (intros r' Hr'; exact (Hconv year rnd race r' Hget Hr')).
    auto.
  - intros (rnd & race & row & Hr & Hget & Hin & Hd). exists rnd, race, row.
    split; [exact Hr|]. split; [exact Hget|].
    split; [apply rows_reached_subset, Hin|exact Hd].
Qed.

Lemma collect_rows_keys (rows : list ResultRow) (d : string) :
  forall st, (is_Some (st.2 !! d) <-> d ∈ st.1) ->
             (is_Some ((fold_left collect_row rows st).2 !! d)
              <-> d ∈ (fold_left collect_row rows st).1).
Proof.
  induction rows as [|row rest IH]; intros st Hst; simpl; [exact Hst|].
  apply IH. unfold collect_row. simpl.
  rewrite lookup_insert, elem_of_union, elem_of_singleton.
  destruct (decide (DriverNumber row = d)) as [Heq|Hne].
  - split; [auto|]. intros _. eexists. reflexivity.
  - rewrite Hst. split; [auto|]. intros [H|H]; [congruence|exact H].
Qed.

(** X9: The name lookup has an entry for exactly the drivers of the driver set,
    so the ["Driver #.."] placeholder is never what fills the Driver column. *)
Theorem name_lookup_covers_drivers (year : Z) (circuit_name : string) (rounds : list Z)
    (d : string) :
  (is_Some (name_lookup year rounds !! d) <-> d ∈ season_drivers year rounds)
  /\ (d ∈ season_drivers year rounds ->
      name_lookup year rounds !! d
      = Some (Driver (columns (driver_row year circuit_name rounds d)))).
Proof.
  assert (is_Some (name_lookup year rounds !! d) <-> d ∈ season_drivers year rounds)
    as Hkeys.
  { unfold name_lookup, season_drivers, collect_drivers.
    assert (forall st, (is_Some (st.2 !! d) <-> d ∈ st.1) ->
              (is_Some ((fold_left (collect_round year) rounds st).2 !! d)
               <-> d ∈ (fold_left (collect_round year) rounds st).1)) as Hgen.
    { induction rounds as [|rnd rs IH]; intros st Hst; simpl; [exact Hst|].
      apply IH. unfold collect_round.
      destruct (get_session year rnd R); [apply collect_rows_keys|]; exact Hst. }
    apply Hgen. simpl. rewrite lookup_empty. split; [intros [? [=]]|].
    intros H. set_solver. }
  split; [exact Hkeys|].
  intros Hd. apply Hkeys in Hd as [name Hname].
  unfold driver_row, add_score, make_row, dict_get. simpl. rewrite Hname. reflexivity.
Qed.

(** ** Further properties of get_past_track_performance *)

Lemma past_years_early (year : Z) : year <= 2018 -> past_years year = [].
Proof.
  intros Hy. apply elem_of_nil_inv. intros y Hin.
  apply elem_of_past_years in Hin. lia.
Qed.

Lemma past_years_length (year : Z) : (length (past_years year) <= 3)%nat.
Proof.
  unfold past_years, range. etransitivity; [apply length_filter|].
  rewrite length_seqZ. replace (year - (year - 3)) with 3 by lia. reflexivity.
Qed.

Lemma track_year_closed_form (circuit_name : string)
    (st : gmap string (list Z) * list Query) (y : Z) (name : string) :
  (track_year circuit_name st y).2 = st.2 ++ season_queries circuit_name y
  /\ dict_get (track_year circuit_name st y).1 name []
     = dict_get st.1 name []
       ++ positions_of FullName
            match track_round circuit_name y with
            | Some rnd =>
                match get_session y rnd R with
                | Some race => classified_prefix race
                | None => []
                end
            | None => []
            end name.
Proof.
  destruct st as [tp log]. unfold track_year, season_queries, track_round. simpl.
  destruct (get_event_schedule y) as [schedule|];
    [|split; [reflexivity|rewrite app_nil_r; reflexivity]].
  destruct (str_contains circuit_name) as [matches|];
    [|split; [reflexivity|rewrite app_nil_r; reflexivity]].
  destruct (List.filter _ schedule) as [|ev evs];
    [split; [reflexivity|rewrite app_nil_r; reflexivity]|].
  destruct (get_session y (RoundNumber ev) R) as [race|]; simpl.
  - split; [rewrite <- app_assoc; reflexivity|]. apply record_positions_closed_form.
  - split; [rewrite <- app_assoc; reflexivity|]. rewrite app_nil_r. reflexivity.
Qed.

Lemma track_fold_closed_form (circuit_name : string) (name : string) (years : list Z) :
  forall st,
    (fold_left (track_year circuit_name) years st).2
    = st.2 ++ flat_map (season_queries circuit_name) years
    /\ dict_get (fold_left (track_year circuit_name) years st).1 name []
       = dict_get st.1 name []
         ++ positions_of FullName
              (flat_map (fun y => match track_round circuit_name y with
                                  | Some rnd =>
                                      match get_session y rnd R with
                                      | Some race => classified_prefix race
                                      | None => []
                                      end
                                  | None => []
                                  end) years) name.
Proof.
  induction years as [|y ys IH]; intros st; cbn [fold_left flat_map].
  - rewrite !app_nil_r. split; reflexivity.
  - destruct (IH (track_year circuit_name st y)) as [Hlog Hlist].
    destruct (track_year_closed_form circuit_name st y name) as [Hlog1 Hlist1].
    rewrite Hlog, Hlist, Hlog1, Hlist1, positions_of_app, <- !app_assoc.
    split; reflexivity.
Qed.

(** X10: For a target season up to 2018 the lookback window is empty:
    [get_past_track_performance] calls the provider not at all and returns the
    empty mapping, so every row of the table gets the default track mean 20. *)
Theorem track_history_empty_before_2019 (circuit_name : string) (year : Z)
    (rounds : list Z) (d : string) :
  year <= 2018 ->
  track_queries circuit_name year = []
  /\ get_past_track_performance circuit_name year = ∅
  /\ TrackAvgPos (columns (driver_row year circuit_name rounds d)) = 20%Q.
Proof.
  intros Hy.
  assert (get_past_track_performance circuit_name year = ∅) as Hempty.
  { unfold get_past_track_performance, track_history.
    rewrite (past_years_early year Hy). simpl. apply fmap_empty. }
  split; [|split].
  - unfold track_queries, track_history. rewrite (past_years_early year Hy). reflexivity.
  - exact Hempty.
  - unfold driver_row, add_score, make_row. simpl. rewrite Hempty.
    unfold dict_get. rewrite lookup_empty. reflexivity.
Qed.

(** X11: The provider calls of [get_past_track_performance], in order: for each
    season of the window, ascending, one schedule call, followed by one call
    for the Race session of the round of the first matching event when the
    schedule is available, the pattern accepted and an event matches.  There
    are at most six calls, and no Sprint session is ever asked for. *)
Theorem track_queries_closed_form (circuit_name : string) (year : Z) :
  track_queries circuit_name year
  = flat_map (season_queries circuit_name) (past_years year)
  /\ (length (track_queries circuit_name year) <= 6)%nat
  /\ forall y rnd k, QSession y rnd k ∈ track_queries circuit_name year ->
                     k = R /\ track_round circuit_name y = Some rnd.
Proof.
  assert (track_queries circuit_name year
          = flat_map (season_queries circuit_name) (past_years year)) as Hq.
  { unfold track_queries, track_history.
    destruct (track_fold_closed_form circuit_name "" (past_years year) (∅, [])) as [-> _].
    reflexivity. }
  split; [exact Hq|]. rewrite Hq. split.
  - pose proof (past_years_length year) as Hlen.
    assert (forall ys, (length (flat_map (season_queries circuit_name) ys)
                        <= 2 * length ys)%nat) as Hgen.
    { induction ys as [|y ys IH]; cbn [flat_map]; [simpl; lia|].
      rewrite length_app. unfold season_queries at 1.
      destruct (track_round circuit_name y); cbn [length]; lia. }
    specialize (Hgen (past_years year)). lia.
  - intros y rnd k Hin. apply list_elem_of_In, in_flat_map in Hin as (y' & _ & Hin).
    unfold season_queries in Hin. destruct Hin as [Heq|Hin]; [discriminate|].
    destruct (track_round circuit_name y') as [rnd'|] eqn:E; [|contradiction].
    destruct Hin as [Heq|[]]. injection Heq as <- <- <-. auto.
Qed.

Lemma track_history_positions (circuit_name : string) (year : Z) (name : string) :
  dict_get (track_history circuit_name year).1 name []
  = positions_of FullName (track_rows_read circuit_name year) name.
Proof.
  unfold track_history, track_rows_read.
  destruct (track_fold_closed_form circuit_name name (past_years year) (∅, []))
    as [_ ->].
  reflexivity.
Qed.

Lemma get_past_track_performance_value (circuit_name : string) (year : Z)
    (name : string) (v : Q) :
  get_past_track_performance circuit_name year !! name = Some v ->
  v = mean_or_default (positions_of FullName (track_rows_read circuit_name year) name).
Proof.
  unfold get_past_track_performance.
  rewrite lookup_fmap, <- track_history_positions. unfold dict_get.
  destruct ((track_history circuit_name year).1 !! name) as [l|]; simpl; [|discriminate].
  intros [= <-]. reflexivity.
Qed.

(** X12: The list [get_past_track_performance] averages for a name holds the
    positions of the rows with that full name in the Race results of the
    resolved rounds of the window's seasons, up to the first non-converting
    row of each; every returned value is the mean of that list, or 20 when
    the list is empty. *)
Theorem track_history_closed_form (circuit_name : string) (year : Z) (name : string) :
  dict_get (track_history circuit_name year).1 name []
  = positions_of FullName (track_rows_read circuit_name year) name
  /\ forall v, get_past_track_performance circuit_name year !! name = Some v ->
               v = mean_or_default
                     (positions_of FullName (track_rows_read circuit_name year) name).
Proof.
  split; [apply track_history_positions|].
  intros v. apply get_past_track_performance_value.
Qed.

(** ** Further properties of the ranking *)

Lemma strongly_sorted_lookup {A : Type} (Rel : A -> A -> Prop) (l : list A) :
  StronglySorted Rel l ->
  forall i j x y, (i < j)%nat -> l !! i = Some x -> l !! j = Some y -> Rel x y.
Proof.
  induction 1 as [|a l Hl IH Hall]; intros i j x y Hij Hi Hj; [discriminate|].
  destruct j as [|j]; [lia|]. simpl in Hj.
  destruct i as [|i]; simpl in Hi.
  - injection Hi as ->. rewrite Forall_forall in Hall. apply Hall.
    apply list_elem_of_lookup. exists j. exact Hj.
  - apply (IH i j); [lia|assumption|assumption].
Qed.

Lemma ranked_drivers_strict (year : Z) (circuit_name : string) (rounds : list Z) :
  exists ds,
    NoDup ds
    /\ predict_table year circuit_name rounds
       = imap (printed_row year circuit_name rounds) ds
    /\ forall i j d1 d2,
         ds !! i = Some d1 -> ds !! j = Some d2 ->
         (CustomScore (driver_row year circuit_name rounds d2)
          < CustomScore (driver_row year circuit_name rounds d1))%Q ->
         (i < j)%nat.
Proof.
  destruct (predict_table_rows year circuit_name rounds) as (ds & Hds & Hsort & Htable).
  pose proof (sort_values_sorted (score_table year circuit_name rounds)) as Hsorted.
  rewrite Hsort in Hsorted.
  exists ds. split; [rewrite Hds; apply NoDup_elements|]. split; [exact Htable|].
  intros i j d1 d2 Hi Hj Hlt.
  destruct (Nat.lt_trichotomy i j) as [Hij|[Hij|Hij]]; [exact Hij| |].
  - subst j. rewrite Hi in Hj. injection Hj as <-.
    exfalso. exact (Qlt_irrefl _ Hlt).
  - exfalso.
    assert (score_ge (driver_row year circuit_name rounds d2)
                     (driver_row year circuit_name rounds d1)) as Hge.
    { apply (strongly_sorted_lookup score_ge _ Hsorted j i); [exact Hij| |].
      - change (map ?f ds) with (f <$> ds). rewrite list_lookup_fmap, Hj. reflexivity.
      - change (map ?f ds) with (f <$> ds). rewrite list_lookup_fmap, Hi. reflexivity. }
    unfold score_ge in Hge. exact (Qlt_not_le _ _ Hlt Hge).
Qed.

(** X14: A driver whose unrounded score is strictly greater than another driver's
    stands strictly higher in the printed table, whatever the set iteration
    order and whatever the sort does with equal scores. *)
Theorem higher_score_ranks_above (year : Z) (circuit_name : string) (rounds : list Z) :
  exists ds,
    NoDup ds
    /\ predict_table year circuit_name rounds
       = imap (printed_row year circuit_name rounds) ds
    /\ forall i j d1 d2,
         ds !! i = Some d1 -> ds !! j = Some d2 ->
         (CustomScore (driver_row year circuit_name rounds d2)
          < CustomScore (driver_row year circuit_name rounds d1))%Q ->
         PredictedRank (printed_row year circuit_name rounds i d1)
         < PredictedRank (printed_row year circuit_name rounds j d2).
Proof.
  destruct (ranked_drivers_strict year circuit_name rounds) as (ds & Hnd & Htable & Hlt).
  exists ds. split; [exact Hnd|]. split; [exact Htable|].
  intros i j d1 d2 Hi Hj Hscore. simpl.
  pose proof (Hlt i j d1 d2 Hi Hj Hscore). lia.
Qed.



Lemma round_half_even_bounds (q : Q) :
  Qfloor q <= round_half_even q <= Qfloor q + 1.
Proof.
  unfold round_half_even.
  destruct (q - inject_Z (Qfloor q) ?= 1 # 2)%Q; [destruct (Z.even (Qfloor q))| |]; lia.
Qed.

Lemma round_half_even_mono (a b : Q) :
  (a <= b)%Q -> round_half_even a <= round_half_even b.
Proof.
  intros Hab. pose proof (Qfloor_resp_le a b Hab) as Hfl.
  destruct (Z.eq_dec (Qfloor a) (Qfloor b)) as [Heq|Hne].
  - unfold round_half_even. rewrite <- Heq.
    destruct (Qcompare_spec (a - inject_Z (Qfloor a)) (1 # 2)) as [Ha|Ha|Ha];
      destruct (Qcompare_spec (b - inject_Z (Qfloor a)) (1 # 2)) as [Hb|Hb|Hb];
      try (destruct (Z.even (Qfloor a))); try lia; exfalso; lra.
  - pose proof (round_half_even_bounds a). pose proof (round_half_even_bounds b). lia.
Qed.

Lemma round2_mono (a b : Q) : (a <= b)%Q -> (round2 a <= round2 b)%Q.
Proof.
  intros Hab. unfold round2.
  assert (round_half_even (a * 100) <= round_half_even (b * 100)) as H.
  { apply round_half_even_mono. lra. }
  unfold Qle. simpl. lia.
Qed.

Lemma printed_scores (rows : list ScoredRow) :
  map (fun r => CustomScore (scored r)) (map round_row (assign_rank rows))
  = map (fun s => round2 (CustomScore s)) rows.
Proof.
  unfold assign_rank. rewrite <- (map_id rows) at 1. rewrite map_imap_map.
  apply list_eq. intros i.
  change (map (fun s => round2 (CustomScore s)) rows)
    with ((fun s => round2 (CustomScore s)) <$> rows).
  rewrite list_lookup_fmap, list_lookup_imap, list_lookup_fmap.
  destruct (rows !! i); reflexivity.
Qed.

(** X16: The CustomScore column as printed, that is after rounding, does not
    increase from one row of the table to the next. *)
Theorem printed_scores_descending (year : Z) (circuit_name : string) (rounds : list Z) :
  StronglySorted (fun a b => (b <= a)%Q)
    (map (fun r => CustomScore (scored r)) (predict_table year circuit_name rounds)).
Proof.
  unfold predict_table. rewrite printed_scores.
  pose proof (sort_values_sorted (score_table year circuit_name rounds)) as Hsorted.
  induction Hsorted as [|s l _ IH Hall]; simpl; constructor; [exact IH|].
  rewrite Forall_forall in Hall. apply Forall_forall. intros q Hq.
  apply list_elem_of_In, in_map_iff in Hq as (s' & <- & Hin).
  apply round2_mono. apply (Hall s'). apply list_elem_of_In, Hin.
Qed.

(** ** A bound on the points of a round *)

Lemma session_earned_bound (rule : nat -> Z) (bound : Z) (results : list ResultRow)
    (d : string) :
  0 <= bound -> (forall i, rule i <= bound) ->
  NoDup (map DriverNumber results) ->
  session_earned rule results d <= bound.
Proof.
  intros Hb Hrule Hnd. unfold session_earned.
  destruct (decide (d ∈ map DriverNumber results)) as [Hin|Hout].
  - apply list_elem_of_In, in_map_iff in Hin as (row & <- & Hin).
    apply list_elem_of_In, list_elem_of_lookup in Hin as [i Hi].
    rewrite (earned_from_unique rule results Hnd 1%nat i row Hi). apply Hrule.
  - rewrite earned_from_absent; [exact Hb|].
    intros row Hin Heq. apply Hout. rewrite <- Heq.
    apply list_elem_of_In, in_map, list_elem_of_In, Hin.
Qed.

Lemma race_rule_bound (i : nat) : race_points_for_rank i <= 25.
Proof. do 11 (destruct i as [|i]; [simpl; lia|]). simpl. lia. Qed.

Lemma sprint_rule_bound (i : nat) : sprint_points_for_rank i <= 8.
Proof. do 9 (destruct i as [|i]; [simpl; lia|]). simpl. lia. Qed.

(** X4: When no session result lists a driver twice, a round is worth at most
    25 + 8 = 33 points to a driver, so a total over n rounds is at most 33 n. *)
Theorem points_bounded_per_round (year : Z) (rounds : list Z) (d : string) :
  (forall rnd k results,
     get_session year rnd k = Some results -> NoDup (map DriverNumber results)) ->
  (dict_get (get_total_driver_points year rounds) d 0
   <= inject_Z (33 * Z.of_nat (length rounds)))%Q.
Proof.
  intros Hnd. rewrite total_points_closed_form_aux. rewrite <- Zle_Qle.
  induction rounds as [|rnd rs IH]; [simpl; lia|].
  cbn [total_earned foldr length]. fold (total_earned year rs d).
  assert (round_earned year rnd d <= 33) as Hround.
  { unfold round_earned. destruct (get_session year rnd R) as [race|] eqn:Er; [|lia].
    pose proof (session_earned_bound race_points_for_rank 25 race d ltac:(lia)
                  race_rule_bound (Hnd rnd R race Er)).
    destruct (get_session year rnd Sprint) as [sprint|] eqn:Es; [|lia].
    pose proof (session_earned_bound sprint_points_for_rank 8 sprint d ltac:(lia)
                  sprint_rule_bound (Hnd rnd Sprint sprint Es)).
    lia. }
  lia.
Qed.

(** ** The completed rounds and the outcome of predict_race *)




(** ** The range of the two mean columns *)

Lemma classified_prefix_subset (results : list ResultRow) (row : ResultRow) :
  row ∈ classified_prefix results -> row ∈ results.
Proof.
  induction results as [|r rest IH]; cbn [classified_prefix]; [auto|].
  destruct (Position r); [|intros H; inversion H].
  intros H. apply elem_of_cons in H as [->|H]; [left|right; auto].
Qed.

Lemma positions_of_elem (key : ResultRow -> string) (rows : list ResultRow)
    (d : string) (p : Z) :
  p ∈ positions_of key rows d ->
  exists row, row ∈ rows /\ key row = d /\ Position row = Some p.
Proof.
  unfold positions_of. rewrite list_elem_of_omap. intros (row & Hin & Hp).
  exists row. destruct (decide (key row = d)); [auto|discriminate].
Qed.

Lemma race_rows_read_fetched (year : Z) (rounds : list Z) (row : ResultRow) :
  row ∈ race_rows_read year rounds ->
  exists rnd results, get_session year rnd R = Some results /\ row ∈ results.
Proof.
  unfold race_rows_read. rewrite list_elem_of_In, in_flat_map.
  intros (rnd & _ & Hin). destruct (get_session year rnd R) as [race|] eqn:E;
    [|contradiction].
  exists rnd, race. split; [exact E|].
  apply classified_prefix_subset, list_elem_of_In, Hin.
Qed.

Lemma track_rows_read_fetched (circuit_name : string) (year : Z) (row : ResultRow) :
  row ∈ track_rows_read circuit_name year ->
  exists y rnd results, get_session y rnd R = Some results /\ row ∈ results.
Proof.
  unfold track_rows_read. rewrite list_elem_of_In, in_flat_map.
  intros (y & _ & Hin). destruct (track_round circuit_name y) as [rnd|]; [|contradiction].
  destruct (get_session y rnd R) as [race|] eqn:E; [|contradiction].
  exists y, rnd, race. split; [exact E|].
  apply classified_prefix_subset, list_elem_of_In, Hin.
Qed.

Lemma fold_sum_bounds (lo hi : Z) (l : list Z) :
  Forall (fun p => lo <= p <= hi) l ->
  forall a, a + lo * Z.of_nat (length l) <= fold_left Z.add l a
            <= a + hi * Z.of_nat (length l).
Proof.
  induction 1 as [|p l Hp _ IH]; intros a; cbn [fold_left length]; [lia|].
  specialize (IH (a + p)). lia.
Qed.

Lemma mean_or_default_bounds (lo hi : Z) (l : list Z) :
  lo <= 20 <= hi ->
  Forall (fun p => lo <= p <= hi) l ->
  (inject_Z lo <= mean_or_default l <= inject_Z hi)%Q.
Proof.
  intros H20 Hall. destruct l as [|p l].
  - simpl. change 20%Q with (inject_Z 20). rewrite <- !Zle_Qle. exact H20.
  - cbn [mean_or_default]. unfold mean.
    pose proof (fold_sum_bounds lo hi (p :: l) Hall 0) as Hsum.
    assert (0 < inject_Z (Z.of_nat (length (p :: l))))%Q as Hpos.
    { change 0%Q with (inject_Z 0). rewrite <- Zlt_Qlt. simpl. lia. }
    split.
    + apply Qle_shift_div_l; [exact Hpos|].
      rewrite <- inject_Z_mult, <- Zle_Qle. lia.
    + apply Qle_shift_div_r; [exact Hpos|].
      rewrite <- inject_Z_mult, <- Zle_Qle. lia.
Qed.

(** X13: When every finish position the provider returns for a Race lies between
    [lo] and [hi], and so does the default 20, then so do the AvgFinishPos and
    TrackAvgPos cells of every row, defaults and non-converting positions
    included. *)
Theorem mean_columns_within_range (lo hi : Z) (year : Z) (circuit_name : string)
    (rounds : list Z) (d : string) :
  lo <= 20 <= hi ->
  (forall y rnd results row p,
     get_session y rnd R = Some results -> row ∈ results ->
     Position row = Some p -> lo <= p <= hi) ->
  (inject_Z lo <= AvgFinishPos (columns (driver_row year circuit_name rounds d))
   <= inject_Z hi)%Q
  /\ (inject_Z lo <= TrackAvgPos (columns (driver_row year circuit_name rounds d))
      <= inject_Z hi)%Q.
Proof.
  intros H20 Hrange.
  assert (inject_Z lo <= 20 <= inject_Z hi)%Q as Hdefault.
  { change 20%Q with (inject_Z 20). rewrite <- !Zle_Qle. exact H20. }
  unfold driver_row, add_score, make_row. cbn [columns AvgFinishPos TrackAvgPos].
  split.
  - unfold dict_get.
    destruct (get_avg_finish_pos year rounds !! d) as [v|] eqn:E; simpl;
      [|exact Hdefault].
    rewrite (get_avg_finish_pos_value year rounds d v E).
    apply mean_or_default_bounds; [exact H20|].
    apply Forall_forall. intros p Hp.
    apply positions_of_elem in Hp as (row & Hin & _ & Hpos).
    apply race_rows_read_fetched in Hin as (rnd & results & Hget & Hin).
    exact (Hrange year rnd results row p Hget Hin Hpos).
  - set (name := dict_get (name_lookup year rounds) d ("Driver #" ++ d)%string).
    unfold dict_get.
    destruct (get_past_track_performance circuit_name year !! name) as [v|] eqn:E; simpl;
      [|exact Hdefault].
    rewrite (get_past_track_performance_value circuit_name year name v E).
    apply mean_or_default_bounds; [exact H20|].
    apply Forall_forall. intros p Hp.
    apply positions_of_elem in Hp as (row & Hin & _ & Hpos).
    apply track_rows_read_fetched in Hin as (y & rnd & results & Hget & Hin).
    exact (Hrange y rnd results row p Hget Hin Hpos).
Qed.

End Pipeline.

(** ** The model run on the fixtures *)

Lemma lookup_session_rows (P : ResultRow -> Prop)
    (table : list (Z * Z * SessionKind * list ResultRow)) :
  Forall (fun e => Forall P e.2) table ->
  forall y rnd k results row,
    lookup_session table y rnd k = Some results -> row ∈ results -> P row.
Proof.
  induction 1 as [|[key res] rest Hres _ IH]; intros y rnd k results row; simpl.
  - discriminate.
  - destruct (decide (key = (y, rnd, k))).
    + intros [= <-] Hin. rewrite Forall_forall in Hres. exact (Hres row Hin).
    + apply IH.
Qed.

(** C1, the failing input: round 1 has no Race result and a Sprint result won
    by driver 44.  The program returns no points at all, where fetching the
    two sessions independently credits the 8 points of a Sprint win. *)
Theorem race_failure_discards_sprint_points :
  lookup_session Fixture.sprint_only_round 2023 1 R = None
  /\ lookup_session Fixture.sprint_only_round 2023 1 Sprint
     = Some [Fixture.ham (Some 1); Fixture.ver (Some 2)]
  /\ get_total_driver_points (lookup_session Fixture.sprint_only_round) 2023 [1] = ∅
  /\ dict_get (get_total_driver_points (lookup_session Fixture.sprint_only_round) 2023 [1])
              "44" 0%Q = 0%Q
  /\ dict_get (fold_left (points_round_independent
                            (lookup_session Fixture.sprint_only_round) 2023) [1] ∅)
              "44" 0%Q = 8%Q.
Proof. repeat split; vm_compute; reflexivity. Qed.

(** The other direction behaves as specified: a failed Sprint fetch leaves the
    Race points of the round in place. *)
Example sprint_failure_keeps_race_points :
  lookup_session Fixture.season 2023 2 Sprint = None
  /\ dict_get (get_total_driver_points (lookup_session Fixture.season) 2023 [2]) "44" 0%Q
     = 25%Q.
Proof. split; vm_compute; reflexivity. Qed.

Lemma points_round_awards_fixed_tables_witness :
  lookup_session Fixture.season 2023 1 R
  = Some [Fixture.ver (Some 1); Fixture.ham (Some 2)]
  /\ (dict_get (points_round (lookup_session Fixture.season) 2023 ∅ 1) "44" 0
      == 0 + inject_Z 18 + inject_Z 8)%Q.
Proof.
  split; [reflexivity|].
  exact (proj1 (points_round_awards_fixed_tables (lookup_session Fixture.season)
                  2023 1 ∅ [Fixture.ver (Some 1); Fixture.ham (Some 2)] "44" eq_refl)).
Defined.

Lemma season_positions_convert : positions_convert (lookup_session Fixture.season).
Proof.
  intros y rnd results row.
  apply (lookup_session_rows (fun row => is_Some (Position row)) Fixture.season).
  repeat constructor; eexists; reflexivity.
Defined.

Lemma season_positions_at_least_one :
  positions_at_least_one (lookup_session Fixture.season).
Proof.
  intros y rnd results row p Hget Hin.
  revert p.
  apply (lookup_session_rows (fun row => forall p, Position row = Some p -> 1 <= p)
           Fixture.season) with y rnd R results; [|exact Hget|exact Hin].
  repeat constructor; simpl; intros p [= <-]; lia.
Defined.

Lemma aggregator_values_are_means_witness :
  positions_convert (lookup_session Fixture.season)
  /\ positions_at_least_one (lookup_session Fixture.season)
  /\ get_avg_finish_pos (lookup_session Fixture.season) 2023 [1; 2] !! "44" = Some (3 # 2)
  /\ (forall d v,
        get_avg_finish_pos (lookup_session Fixture.season) 2023 [1; 2] !! d = Some v ->
        (1 <= v)%Q)
  /\ means_of_recorded (lookup_session Fixture.season) FullName
       (track_history (lookup_session Fixture.season) Fixture.schedule Fixture.contains
                      "Italian" 2023).1
       (get_past_track_performance (lookup_session Fixture.season) Fixture.schedule
                                   Fixture.contains "Italian" 2023).
Proof.
  pose proof (aggregator_values_are_means (lookup_session Fixture.season)
                Fixture.schedule Fixture.contains 2023 [1; 2] "Italian"
                season_positions_convert) as [[_ Htrack] Hone].
  split; [exact season_positions_convert|].
  split; [exact season_positions_at_least_one|].
  split; [vm_compute; reflexivity|].
  split; [exact (proj1 (Hone season_positions_at_least_one))|exact Htrack].
Defined.

(** C9, the input the claim overlooks: the first row of the Race result has no
    classified position.  Its key is created by the subscript before [int()]
    raises, stays bound to the empty list, and is returned with the value 20
    of the [else] branch, although every position that was read is at least 1. *)
Lemma fallback_taken_for_unclassified_row :
  season_finishes (lookup_session Fixture.unclassified) 2023 [1] !! "38" = Some []
  /\ get_avg_finish_pos (lookup_session Fixture.unclassified) 2023 [1] !! "38" = Some 20%Q
  /\ get_past_track_performance (lookup_session Fixture.unclassified) Fixture.schedule
       Fixture.contains "Italian" 2023 !! "Oliver Bearman" = Some 20%Q
  /\ ~ means_of_recorded (lookup_session Fixture.unclassified) DriverNumber
         (season_finishes (lookup_session Fixture.unclassified) 2023 [1])
         (get_avg_finish_pos (lookup_session Fixture.unclassified) 2023 [1])
  /\ ~ means_of_recorded (lookup_session Fixture.unclassified) FullName
         (track_history (lookup_session Fixture.unclassified) Fixture.schedule
                        Fixture.contains "Italian" 2023).1
         (get_past_track_performance (lookup_session Fixture.unclassified)
            Fixture.schedule Fixture.contains "Italian" 2023).
Proof.
  assert (season_finishes (lookup_session Fixture.unclassified) 2023 [1] !! "38"
          = Some []) as Hfin by (vm_compute; reflexivity).
  assert (get_avg_finish_pos (lookup_session Fixture.unclassified) 2023 [1] !! "38"
          = Some 20%Q) as Havg by (vm_compute; reflexivity).
  assert ((track_history (lookup_session Fixture.unclassified) Fixture.schedule
             Fixture.contains "Italian" 2023).1 !! "Oliver Bearman" = Some [])
    as Hhist by (vm_compute; reflexivity).
  assert (get_past_track_performance (lookup_session Fixture.unclassified)
            Fixture.schedule Fixture.contains "Italian" 2023 !! "Oliver Bearman"
          = Some 20%Q) as Htrack by (vm_compute; reflexivity).
  repeat split; try assumption.
  - intros Hmeans. destruct (Hmeans "38" 20%Q Havg) as (l & Hl & Hne & _).
    rewrite Hfin in Hl. injection Hl as <-. apply Hne. reflexivity.
  - intros Hmeans. destruct (Hmeans "Oliver Bearman" 20%Q Htrack) as (l & Hl & Hne & _).
    rewrite Hhist in Hl. injection Hl as <-. apply Hne. reflexivity.
Qed.

(** The table stage on a fixture, with sets listed in [elements] order and a
    merge sort for [sort_values]. *)
Local Abbreviation run_table table :=
  (predict_table (set_order := elements_order) (score_sort := merge_sort_scores)
     (lookup_session table) Fixture.schedule Fixture.contains).

Example predict_race_on_season :
  predict_race (set_order := elements_order) (score_sort := merge_sort_scores)
    (lookup_session Fixture.season) Fixture.schedule Fixture.contains 2023 "Italian" 25
  = Table (run_table Fixture.season 2023 "Italian" [1; 2])
  /\ map (fun r => (PredictedRank r, Driver (columns (scored r)))) 
         (run_table Fixture.season 2023 "Italian" [1; 2])
     = [(1, "Max Verstappen"); (2, "Lewis Hamilton")]
  /\ predict_race (set_order := elements_order) (score_sort := merge_sort_scores)
       (lookup_session Fixture.season) Fixture.schedule Fixture.contains 2023 "Monaco" 25
     = NoCircuit.
Proof. repeat split; vm_compute; reflexivity. Qed.

(** C2, the input that separates the claim from the program: driver 38 is
    listed in the Sprint result of round 1 and in no Race result.  The driver
    appeared in a completed round, yet the table has two rows, those of the
    drivers 1 and 44, so it is not the table of the drivers who appeared. *)
Lemma sprint_only_driver_not_listed :
  appeared (lookup_session Fixture.sprint_guest) 2023 [1] "38"
  /\ map (fun r => Driver (columns (scored r)))
         (run_table Fixture.sprint_guest 2023 "Italian" [1])
     = ["Max Verstappen"; "Lewis Hamilton"]
  /\ ~ exists ds,
         NoDup ds
         /\ run_table Fixture.sprint_guest 2023 "Italian" [1]
            = imap (printed_row (lookup_session Fixture.sprint_guest) Fixture.schedule
                      Fixture.contains 2023 "Italian" [1]) ds
         /\ forall d, d ∈ ds <-> appeared (lookup_session Fixture.sprint_guest) 2023 [1] d.
Proof.
  assert (forall d row, row ∈ [Fixture.ham (Some 1); Fixture.bea (Some 2);
                                Fixture.ver (Some 3)] ->
                        DriverNumber row = d ->
                        appeared (lookup_session Fixture.sprint_guest) 2023 [1] d)
    as Hsprint.
  { intros d row Hin Hd.
    exists 1, Sprint, [Fixture.ham (Some 1); Fixture.bea (Some 2); Fixture.ver (Some 3)], row.
    split; [left|]. split; [reflexivity|]. split; [exact Hin|exact Hd]. }
  split; [|split].
  - apply (Hsprint "38" (Fixture.bea (Some 2))); [right; left|reflexivity].
  - vm_compute. reflexivity.
  - intros (ds & _ & Htable & Hiff).
    apply (f_equal length) in Htable. rewrite length_imap in Htable.
    assert ("38" ∈ ds) as H38
      by (apply Hiff, (Hsprint "38" (Fixture.bea (Some 2))); [right; left|reflexivity]).
    assert ("44" ∈ ds) as H44
      by (apply Hiff, (Hsprint "44" (Fixture.ham (Some 1))); [left|reflexivity]).
    assert ("1" ∈ ds) as H1
      by (apply Hiff, (Hsprint "1" (Fixture.ver (Some 3)));
          [right; right; left|reflexivity]).
    vm_compute in Htable.
    destruct ds as [|a [|b [|c ds]]]; try discriminate.
    rewrite !elem_of_cons, !elem_of_nil in H38, H44, H1.
    destruct H38 as [<-|[<-|[]]]; destruct H44 as [?|[?|[]]]; destruct H1 as [?|[?|[]]];
      congruence.
Qed.

Lemma season_driver_44 :
  "44" ∈ season_drivers (lookup_session Fixture.season) 2023 [1; 2].
Proof.
  apply season_drivers_raced.
  exists 1, [Fixture.ver (Some 1); Fixture.ham (Some 2)], (Fixture.ham (Some 2)).
  split; [left|]. split; [reflexivity|]. split; [right; left|reflexivity].
Defined.

Lemma score_formula_witness :
  "44" ∈ season_drivers (lookup_session Fixture.season) 2023 [1; 2]
  /\ exists s,
       s ∈ score_table (set_order := elements_order)
             (lookup_session Fixture.season) Fixture.schedule Fixture.contains
             2023 "Italian" [1; 2]
       /\ Driver (columns s) = "Lewis Hamilton"
       /\ CustomScore s = (51 * 20 + - (3 # 2) * 25 + - (5 # 2) * 25)%Q
       /\ (CustomScore s == 920)%Q.
Proof.
  split; [exact season_driver_44|].
  destruct (score_formula (set_order := elements_order) (score_sort := merge_sort_scores)
              (lookup_session Fixture.season) Fixture.schedule Fixture.contains
              2023 "Italian" [1; 2] "44" season_driver_44)
    as (s & Hin & Hname & _ & _ & _ & Hscore & _).
  exists s. split; [exact Hin|]. split; [|split].
  - rewrite Hname. vm_compute. reflexivity.
  - rewrite Hscore. vm_compute. reflexivity.
  - rewrite Hscore. vm_compute. reflexivity.
Defined.

Lemma no_driver_gives_empty_table_witness :
  (forall rnd, rnd ∈ [1; 2] ->
     lookup_session Fixture.sprint_only_round 2023 rnd R = None)
  /\ run_table Fixture.sprint_only_round 2023 "Italian" [1; 2] = [].
Proof.
  assert (forall rnd, rnd ∈ [1; 2] ->
            lookup_session Fixture.sprint_only_round 2023 rnd R = None) as Hfail.
  { intros rnd Hin. rewrite !elem_of_cons, elem_of_nil in Hin.
    destruct Hin as [->|[->|[]]]; reflexivity. }
  split; [exact Hfail|].
  exact (proj2 (no_driver_gives_empty_table (set_order := elements_order)
                  (score_sort := merge_sort_scores)
                  (lookup_session Fixture.sprint_only_round) Fixture.schedule
                  Fixture.contains 2023 "Italian" [1; 2] Hfail)).
Defined.

Lemma renamed_driver_44 :
  "44" ∈ season_drivers (lookup_session Fixture.renamed) 2023 [1; 2; 3].
Proof.
  apply season_drivers_raced.
  exists 1, [mkResultRow "44" "L. Hamilton" (Some 1)],
         (mkResultRow "44" "L. Hamilton" (Some 1)).
  split; [left|]. split; [reflexivity|]. split; [left|reflexivity].
Defined.

Lemma displayed_name_is_latest_witness :
  "44" ∈ season_drivers (lookup_session Fixture.renamed) 2023 [1; 2; 3]
  /\ exists name,
       Driver (columns (driver_row (lookup_session Fixture.renamed) Fixture.schedule
                          Fixture.contains 2023 "Italian" [1; 2; 3] "44")) = name
       /\ name = "Lewis Hamilton"
       /\ TrackAvgPos (columns (driver_row (lookup_session Fixture.renamed)
                                  Fixture.schedule Fixture.contains 2023 "Italian"
                                  [1; 2; 3] "44"))
          = dict_get (get_past_track_performance (lookup_session Fixture.renamed)
                        Fixture.schedule Fixture.contains "Italian" 2023) name 20%Q
       /\ get_past_track_performance (lookup_session Fixture.renamed)
            Fixture.schedule Fixture.contains "Italian" 2023 !! "L. Hamilton"
          = Some 5%Q
       /\ dict_get (get_past_track_performance (lookup_session Fixture.renamed)
                      Fixture.schedule Fixture.contains "Italian" 2023) name 20%Q
          = 20%Q.
Proof.
  split; [exact renamed_driver_44|].
  destruct (displayed_name_is_latest (set_order := elements_order)
              (score_sort := merge_sort_scores)
              (lookup_session Fixture.renamed) Fixture.schedule Fixture.contains
              2023 "Italian" [1; 2; 3] "44" renamed_driver_44)
    as (before & rnd & after & results & name & _ & _ & _ & _ & Hname & Htrack & _).
  exists name.
  assert (name = "Lewis Hamilton") as Heq by (rewrite <- Hname; vm_compute; reflexivity).
  split; [exact Hname|]. split; [exact Heq|]. split; [exact Htrack|].
  split; [vm_compute; reflexivity|].
  rewrite Heq. vm_compute. reflexivity.
Defined.

(** ** What the results do not depend on *)

Lemma fold_left_agree {A B : Type} (f g : A -> B -> A) (l : list B) :
  (forall a x, x ∈ l -> f a x = g a x) ->
  forall a, fold_left f l a = fold_left g l a.
Proof.
  induction l as [|x l IH]; intros H a; simpl; [reflexivity|].
  rewrite (H a x) by left. apply IH. intros a' x' Hx'. apply H. right. exact Hx'.
Qed.

Lemma award_drivers_only (table : list Z) (limit : nat) (r1 : list ResultRow) :
  forall r2, map DriverNumber r1 = map DriverNumber r2 ->
  forall start points,
    fold_left (award_step table limit) (enumerate start r1) points
    = fold_left (award_step table limit) (enumerate start r2) points.
Proof.
  induction r1 as [|a r1 IH]; intros [|b r2] Hmap start points;
    try discriminate; [reflexivity|].
  injection Hmap as Hd Hrest. cbn [enumerate fold_left].
  unfold award_step at 2 4. rewrite Hd. apply IH. exact Hrest.
Qed.

Lemma points_round_drivers_only
    (g1 g2 : Z -> Z -> SessionKind -> option (list ResultRow))
    (year rnd : Z) (points : gmap string Q) :
  (forall k, option_map (map DriverNumber) (g1 year rnd k)
             = option_map (map DriverNumber) (g2 year rnd k)) ->
  points_round g1 year points rnd = points_round g2 year points rnd.
Proof.
  intros H. unfold points_round. pose proof (H R) as HR. pose proof (H Sprint) as HS.
  destruct (g1 year rnd R) as [race1|], (g2 year rnd R) as [race2|];
    simpl in HR; try discriminate; [|reflexivity].
  injection HR as HR. unfold award.
  rewrite (award_drivers_only _ _ race1 race2 HR).
  destruct (g1 year rnd Sprint) as [s1|], (g2 year rnd Sprint) as [s2|];
    simpl in HS; try discriminate; [|reflexivity].
  injection HS as HS. apply award_drivers_only, HS.
Qed.

(** X5: The points are computed from the order of the result rows alone: two
    providers whose results list the same driver numbers in the same order
    give the same totals, whatever the Position and FullName cells hold. *)
Theorem points_ignore_positions
    (g1 g2 : Z -> Z -> SessionKind -> option (list ResultRow))
    (year : Z) (rounds : list Z) :
  (forall rnd k, rnd ∈ rounds ->
     option_map (map DriverNumber) (g1 year rnd k)
     = option_map (map DriverNumber) (g2 year rnd k)) ->
  get_total_driver_points g1 year rounds = get_total_driver_points g2 year rounds.
Proof.
  intros H. unfold get_total_driver_points. apply fold_left_agree.
  intros points rnd Hin. apply points_round_drivers_only. intros k. exact (H rnd k Hin).
Qed.

Lemma points_round_agree (g1 g2 : Z -> Z -> SessionKind -> option (list ResultRow))
    (year rnd : Z) (points : gmap string Q) :
  (forall k, g1 year rnd k = g2 year rnd k) ->
  points_round g1 year points rnd = points_round g2 year points rnd.
Proof. intros H. unfold points_round. rewrite !H. reflexivity. Qed.

Lemma track_year_agree (g1 g2 : Z -> Z -> SessionKind -> option (list ResultRow))
    (schedule_of : Z -> option (list Event)) (contains : string -> option (string -> bool))
    (circuit_name : string) (st : gmap string (list Z) * list Query) (y : Z) :
  (forall rnd k, g1 y rnd k = g2 y rnd k) ->
  track_year g1 schedule_of contains circuit_name st y
  = track_year g2 schedule_of contains circuit_name st y.
Proof.
  intros H. unfold track_year. destruct st as [tp log].
  destruct (schedule_of y) as [schedule|]; [|reflexivity].
  destruct (contains circuit_name) as [matches|]; [|reflexivity].
  destruct (List.filter _ schedule) as [|ev evs]; [reflexivity|].
  rewrite H. reflexivity.
Qed.

Lemma predict_table_agree (g1 g2 : Z -> Z -> SessionKind -> option (list ResultRow))
    (schedule_of : Z -> option (list Event)) (contains : string -> option (string -> bool))
    (set_order : SetOrder) (score_sort : ScoreSort)
    (year : Z) (circuit_name : string) (rounds : list Z) :
  (forall rnd k, rnd ∈ rounds -> g1 year rnd k = g2 year rnd k) ->
  (forall y rnd k, y < year -> g1 y rnd k = g2 y rnd k) ->
  predict_table g1 schedule_of contains year circuit_name rounds
  = predict_table g2 schedule_of contains year circuit_name rounds.
Proof.
  intros Hrounds Hpast.
  assert (get_total_driver_points g1 year rounds = get_total_driver_points g2 year rounds)
    as Hpoints.
  { unfold get_total_driver_points. apply fold_left_agree.
    intros points rnd Hin. apply points_round_agree. intros k. exact (Hrounds rnd k Hin). }
  assert (season_finishes g1 year rounds = season_finishes g2 year rounds) as Hfin.
  { unfold season_finishes. apply fold_left_agree.
    intros fin rnd Hin. unfold finishes_round. rewrite (Hrounds rnd R Hin). reflexivity. }
  assert (collect_drivers g1 year rounds = collect_drivers g2 year rounds) as Hcollect.
  { unfold collect_drivers. apply fold_left_agree.
    intros st rnd Hin. unfold collect_round. rewrite (Hrounds rnd R Hin). reflexivity. }
  assert (track_history g1 schedule_of contains circuit_name year
          = track_history g2 schedule_of contains circuit_name year) as Htrack.
  { unfold track_history. apply fold_left_agree.
    intros st y Hin. apply track_year_agree. intros rnd k. apply Hpast.
    apply elem_of_past_years in Hin. lia. }
  unfold predict_table, score_table, data_rows, season_drivers, name_lookup,
    get_avg_finish_pos, get_past_track_performance.
  rewrite Hpoints, Hfin, Hcollect, Htrack. reflexivity.
Qed.

(** X19: No lookahead: the outcome of [predict_race] is the same for two providers
    that agree on the sessions of the target season's rounds dated before
    [now] and on all sessions of earlier seasons; what the provider holds for
    later rounds of the target season, and for later seasons, is not used. *)
Theorem prediction_ignores_future_rounds
    (g1 g2 : Z -> Z -> SessionKind -> option (list ResultRow))
    (schedule_of : Z -> option (list Event)) (contains : string -> option (string -> bool))
    (set_order : SetOrder) (score_sort : ScoreSort)
    (year : Z) (circuit_name : string) (now : Z) (schedule : list Event) :
  schedule_of year = Some schedule ->
  (forall rnd k, rnd ∈ completed_rounds schedule now -> g1 year rnd k = g2 year rnd k) ->
  (forall y rnd k, y < year -> g1 y rnd k = g2 y rnd k) ->
  predict_race g1 schedule_of contains year circuit_name now
  = predict_race g2 schedule_of contains year circuit_name now.
Proof.
  intros Hsched Hrounds Hpast. unfold predict_race. rewrite Hsched.
  destruct (contains circuit_name) as [matches|]; [|reflexivity].
  destruct (List.filter _ schedule); [reflexivity|].
  simpl. f_equal. apply predict_table_agree; assumption.
Qed.

(** ** The further properties run on the fixtures *)

Lemma lookup_session_results (P : list ResultRow -> Prop)
    (table : list (Z * Z * SessionKind * list ResultRow)) :
  Forall (fun e => P e.2) table ->
  forall y rnd k results, lookup_session table y rnd k = Some results -> P results.
Proof.
  induction 1 as [|[key res] rest Hres _ IH]; intros y rnd k results; simpl.
  - discriminate.
  - destruct (decide (key = (y, rnd, k))); [intros [= <-]; exact Hres|apply IH].
Qed.

Lemma lookup_session_map (f : list ResultRow -> list ResultRow)
    (table : list (Z * Z * SessionKind * list ResultRow)) (y rnd : Z) (k : SessionKind) :
  lookup_session (map (fun e => (e.1, f e.2)) table) y rnd k
  = option_map f (lookup_session table y rnd k).
Proof.
  induction table as [|[key res] rest IH]; simpl; [reflexivity|].
  destruct (decide (key = (y, rnd, k))); [reflexivity|exact IH].
Qed.

Lemma total_points_order_independent_witness :
  [1; 2] ≡ₚ [2; 1]
  /\ (dict_get (get_total_driver_points (lookup_session Fixture.season) 2023%Z
                  [1%Z; 2%Z]) "44" 0
      == dict_get (get_total_driver_points (lookup_session Fixture.season) 2023%Z
                     [2%Z; 1%Z]) "44" 0)%Q.
Proof.
  split; [apply perm_swap|].
  exact (total_points_order_independent (lookup_session Fixture.season) 2023
           [1; 2] [2; 1] "44" (perm_swap 2 1 [])).
Defined.

Lemma avg_finish_covers_table_witness :
  positions_convert (lookup_session Fixture.season)
  /\ ("44" ∈ season_drivers (lookup_session Fixture.season) 2023 [1; 2]
      <-> is_Some (get_avg_finish_pos (lookup_session Fixture.season) 2023 [1; 2] !! "44")).
Proof.
  split; [exact season_positions_convert|].
  exact (avg_finish_covers_table (lookup_session Fixture.season) 2023 [1; 2] "44"
           season_positions_convert).
Defined.

Lemma track_history_empty_before_2019_witness :
  2018 <= 2018
  /\ track_queries (lookup_session Fixture.season) Fixture.schedule Fixture.contains
       "Italian" 2018 = []
  /\ get_past_track_performance (lookup_session Fixture.season) Fixture.schedule
       Fixture.contains "Italian" 2018 = ∅.
Proof.
  split; [lia|].
  destruct (track_history_empty_before_2019 (lookup_session Fixture.season)
              Fixture.schedule Fixture.contains "Italian" 2018 [1] "44" ltac:(lia))
    as (Hq & Hempty & _).
  split; [exact Hq|exact Hempty].
Defined.

Lemma season_lists_drivers_once :
  forall rnd k results,
    lookup_session Fixture.season 2023 rnd k = Some results ->
    NoDup (map DriverNumber results).
Proof.
  intros rnd k results.
  apply (lookup_session_results (fun res => NoDup (map DriverNumber res)) Fixture.season).
  repeat (apply Forall_cons; split; [apply (bool_decide_unpack _); vm_compute; exact I|]).
  apply Forall_nil. exact I.
Defined.

Lemma points_bounded_per_round_witness :
  (forall rnd k results,
     lookup_session Fixture.season 2023 rnd k = Some results ->
     NoDup (map DriverNumber results))
  /\ (dict_get (get_total_driver_points (lookup_session Fixture.season) 2023%Z
                  [1%Z; 2%Z]) "44" 0
      <= inject_Z 66)%Q.
Proof.
  split; [exact season_lists_drivers_once|].
  exact (points_bounded_per_round (lookup_session Fixture.season) 2023 [1; 2] "44"
           season_lists_drivers_once).
Defined.


Lemma season_same_drivers :
  forall rnd k, rnd ∈ [1; 2] ->
    option_map (map DriverNumber) (lookup_session Fixture.season 2023 rnd k)
    = option_map (map DriverNumber) (lookup_session season_without_positions 2023 rnd k).
Proof.
  intros rnd k _. unfold season_without_positions. rewrite lookup_session_map.
  destruct (lookup_session Fixture.season 2023 rnd k) as [res|]; simpl; [|reflexivity].
  rewrite map_map. reflexivity.
Defined.

Lemma points_ignore_positions_witness :
  (forall rnd k, rnd ∈ [1; 2] ->
     option_map (map DriverNumber) (lookup_session Fixture.season 2023 rnd k)
     = option_map (map DriverNumber) (lookup_session season_without_positions 2023 rnd k))
  /\ get_total_driver_points (lookup_session Fixture.season) 2023 [1; 2]
     = get_total_driver_points (lookup_session season_without_positions) 2023 [1; 2].
Proof.
  split; [exact season_same_drivers|].
  exact (points_ignore_positions (lookup_session Fixture.season)
           (lookup_session season_without_positions) 2023 [1; 2] season_same_drivers).
Defined.

Lemma later_round_same_before_now :
  forall rnd k,
    rnd ∈ completed_rounds [mkEvent "Bahrain Grand Prix" 1 10;
                            mkEvent "Italian Grand Prix" 2 20;
                            mkEvent "Belgian Grand Prix" 3 30] 25 ->
    lookup_session season_with_later_round 2023 rnd k
    = lookup_session Fixture.season 2023 rnd k.
Proof.
  intros rnd k Hin.
  change (rnd ∈ [1; 2]) in Hin. rewrite !elem_of_cons, elem_of_nil in Hin.
  unfold season_with_later_round. cbn [lookup_session].
  rewrite decide_False; [reflexivity|]. intros [= <- _]. lia.
Defined.

Lemma later_round_same_earlier_seasons :
  forall y rnd k, y < 2023 ->
    lookup_session season_with_later_round y rnd k = lookup_session Fixture.season y rnd k.
Proof.
  intros y rnd k Hy. unfold season_with_later_round. cbn [lookup_session].
  rewrite decide_False; [reflexivity|]. intros [= <- _ _]. lia.
Defined.

Lemma prediction_ignores_future_rounds_witness :
  Fixture.schedule 2023 = Some [mkEvent "Bahrain Grand Prix" 1 10;
                                mkEvent "Italian Grand Prix" 2 20;
                                mkEvent "Belgian Grand Prix" 3 30]
  /\ lookup_session season_with_later_round 2023 3 R
     <> lookup_session Fixture.season 2023 3 R
  /\ predict_race (set_order := elements_order) (score_sort := merge_sort_scores)
       (lookup_session season_with_later_round) Fixture.schedule Fixture.contains
       2023 "Italian" 25
     = predict_race (set_order := elements_order) (score_sort := merge_sort_scores)
         (lookup_session Fixture.season) Fixture.schedule Fixture.contains
         2023 "Italian" 25.
Proof.
  split; [reflexivity|]. split; [discriminate|].
  exact (prediction_ignores_future_rounds
           (lookup_session season_with_later_round) (lookup_session Fixture.season)
           Fixture.schedule Fixture.contains elements_order merge_sort_scores
           2023 "Italian" 25 _ eq_refl
           later_round_same_before_now later_round_same_earlier_seasons).
Defined.

Lemma season_positions_within_range :
  forall y rnd results row p,
    lookup_session Fixture.season y rnd R = Some results -> row ∈ results ->
    Position row = Some p -> 1 <= p <= 20.
Proof.
  intros y rnd results row p Hget Hin. revert p.
  apply (lookup_session_rows (fun row => forall p, Position row = Some p -> 1 <= p <= 20)
           Fixture.season) with y rnd R results; [|exact Hget|exact Hin].
  repeat (first [apply List.Forall_nil | apply List.Forall_cons]);
    simpl; intros p [= <-]; lia.
Defined.

Lemma mean_columns_within_range_witness :
  1 <= 20 <= 20
  /\ (forall y rnd results row p,
        lookup_session Fixture.season y rnd R = Some results -> row ∈ results ->
        Position row = Some p -> 1 <= p <= 20)
  /\ (inject_Z 1
      <= AvgFinishPos (columns (driver_row (lookup_session Fixture.season)
                                  Fixture.schedule Fixture.contains 2023%Z "Italian"
                                  [1%Z; 2%Z] "44"))
      <= inject_Z 20)%Q.
Proof.
  split; [lia|]. split; [exact season_positions_within_range|].
  exact (proj1 (mean_columns_within_range (lookup_session Fixture.season)
                  Fixture.schedule Fixture.contains 1 20 2023 "Italian" [1; 2] "44"
                  ltac:(lia) season_positions_within_range)).
Defined.
